(** * Coverage utilities of the experiment runner (experiment/coverage_utils.py)

    A shallow embedding of the coverage aggregation code: the region
    extractor of [TrialCoverage], the per-pair reducer [get_covered_region],
    the receive loop of [get_all_covered_regions], the key of the global
    coverage dictionary and the staging of coverage archives.

    Conventions of the embedding.
    - A Python exception is a value of [exn]; code that can raise returns a
      [result]; code that mutates an object and can raise runs in the monad
      [St], which keeps the state reached when the exception is raised.
    - A decoded JSON document is a value of [json].  Numbers are the
      integers: a document with a fractional number is outside the model.
    - A [dict] with string keys is a [gmap string _], a [set] is a [gset].
    - Only error-level log records are modelled. *)

From Stdlib Require Import Ascii String ZArith.
From stdpp Require Import gmap strings list fin_maps pretty.

Local Open Scope string_scope.
Local Open Scope list_scope.
Set Warnings "-register-all,-clear-no-such-hyp".

(** ** Exceptions and results *)

Inductive exn : Set :=
| IndexError
| KeyError
| TypeError
| FileNotFoundError
| JSONDecodeError
| OSError.

Inductive result (A : Type) : Type :=
| Ok (a : A)
| Raise (e : exn).
Arguments Ok {A} a.
Arguments Raise {A} e.

Definition is_ok {A} (r : result A) : bool :=
  match r with Ok _ => true | Raise _ => false end.

(** State that survives an exception: the state component is the state
    of the mutated object at the point the computation stopped. *)
Definition St (S A : Type) : Type := S → S * result A.

Definition st_ret {S A} (a : A) : St S A := λ s, (s, Ok a).
Definition st_lift {S A} (r : result A) : St S A := λ s, (s, r).
Definition st_bind {S A B} (m : St S A) (k : A → St S B) : St S B :=
  λ s, match m s with
       | (s', Ok a) => k a s'
       | (s', Raise e) => (s', Raise e)
       end.
Definition st_get {S} : St S S := λ s, (s, Ok s).
Definition st_modify {S} (f : S → S) : St S unit := λ s, (f s, Ok tt).

Global Instance St_ret {S} : MRet (St S) := λ A a, st_ret a.
Global Instance St_bind {S} : MBind (St S) := λ A B k m, st_bind m k.

(** [for x in l: body(x)] *)
Fixpoint for_each {S A} (l : list A) (body : A → St S unit) : St S unit :=
  match l with
  | [] => st_ret tt
  | x :: rest => st_bind (body x) (λ _, for_each rest body)
  end.

(** ** Decoded JSON documents and the Python operations used on them *)

Inductive json : Type :=
| JNull
| JBool (b : bool)
| JInt (z : Z)
| JStr (s : string)
| JArr (items : list json)
| JObj (members : list (string * json)).

(** A [dict] decoded from a JSON object, as the list of its members. *)
Fixpoint assoc (k : string) (members : list (string * json)) : option json :=
  match members with
  | [] => None
  | (k', v) :: rest => if String.eqb k k' then Some v else assoc k rest
  end.

Fixpoint chars (s : string) : list json :=
  match s with
  | EmptyString => []
  | String c rest => JStr (String c EmptyString) :: chars rest
  end.

(** [v[key]] with a [str] key. *)
Definition getitem_str (v : json) (key : string) : result json :=
  match v with
  | JObj members =>
      match assoc key members with Some x => Ok x | None => Raise KeyError end
  | _ => Raise TypeError
  end.

(** [v[i]] with an [int] index [i >= 0]. *)
Definition getitem_int (v : json) (i : nat) : result json :=
  match v with
  | JArr items =>
      match items !! i with Some x => Ok x | None => Raise IndexError end
  | JStr s =>
      match chars s !! i with Some x => Ok x | None => Raise IndexError end
  | JObj _ => Raise KeyError
  | _ => Raise TypeError
  end.

(** [v[-1]] *)
Definition getitem_last (v : json) : result json :=
  match v with
  | JArr items =>
      match last items with Some x => Ok x | None => Raise IndexError end
  | JStr s =>
      match last (chars s) with Some x => Ok x | None => Raise IndexError end
  | JObj _ => Raise KeyError
  | _ => Raise TypeError
  end.

(** The values a [for] statement binds when it iterates over [v]. *)
Definition iterate (v : json) : result (list json) :=
  match v with
  | JArr items => Ok items
  | JStr s => Ok (chars s)
  | JObj members => Ok (map (λ kv, JStr (fst kv)) members)
  | _ => Raise TypeError
  end.

(** [v != 0] and [v == 0]: [True] and [False] compare as 1 and 0. *)
Definition ne_zero (v : json) : bool :=
  match v with
  | JInt z => negb (Z.eqb z 0)
  | JBool b => b
  | _ => true
  end.

Definition eq_zero (v : json) : bool :=
  match v with
  | JInt z => Z.eqb z 0
  | JBool b => negb b
  | _ => false
  end.

(** [v[:n]] as the sequence [tuple] makes of it.  In the extractor it is
    only evaluated after [v[4]] has succeeded. *)
Definition slice_to (v : json) (n : nat) : result (list json) :=
  match v with
  | JArr items => Ok (take n items)
  | JStr s => Ok (take n (chars s))
  | _ => Raise TypeError
  end.

(** ** Regions

    An element of a covered-region set is a tuple of hashable scalars.
    A Python set identifies [True] with [1] and [False] with [0]; a field
    is represented by its class under that equality. *)

Inductive field : Set :=
| FNone
| FInt (z : Z)
| FStr (s : string).

Global Instance field_eq_dec : EqDecision field.
Proof. solve_decision. Defined.

Global Instance field_countable : Countable field.
Proof.
  refine (inj_countable'
    (λ f, match f with
          | FNone => inl tt
          | FInt z => inr (inl z)
          | FStr s => inr (inr s)
          end)
    (λ x, match x with
          | inl _ => FNone
          | inr (inl z) => FInt z
          | inr (inr s) => FStr s
          end) _).
  by intros [].
Defined.

Abbreviation Region := (list field).
Abbreviation RegionSet := (gset (list field)).

(** [hash(x)] succeeds on scalars and raises [TypeError] on lists and dicts. *)
Definition hashable (v : json) : result field :=
  match v with
  | JNull => Ok FNone
  | JBool b => Ok (FInt (if b then 1 else 0))
  | JInt z => Ok (FInt z)
  | JStr s => Ok (FStr s)
  | JArr _ | JObj _ => Raise TypeError
  end.

Fixpoint hashable_tuple (items : list json) : result Region :=
  match items with
  | [] => Ok []
  | x :: rest =>
      match hashable x with
      | Raise e => Raise e
      | Ok f =>
          match hashable_tuple rest with
          | Raise e => Raise e
          | Ok fs => Ok (f :: fs)
          end
      end
  end.

(** ** Text files *)

Definition newline : ascii := "010"%char.

(** [file.readlines()]: the lines of the text, each with its terminator.
    The text is the content as [open] delivers it in text mode, where
    every line end is the newline character. *)
Fixpoint readlines (text : string) : list string :=
  match text with
  | EmptyString => []
  | String c rest =>
      if Ascii.eqb c newline then String c EmptyString :: readlines rest
      else match readlines rest with
           | [] => [String c EmptyString]
           | line :: lines => String c line :: lines
           end
  end.

(** The file system seen by [open]: path to text content. *)
Abbreviation FS := (gmap string string).

(** posixpath.join of two components ([os.path.join] on the host). *)
Definition starts_with_sep (s : string) : bool :=
  match s with
  | String c _ => Ascii.eqb c "/"%char
  | EmptyString => false
  end.

Fixpoint ends_with_sep (s : string) : bool :=
  match s with
  | EmptyString => false
  | String c EmptyString => Ascii.eqb c "/"%char
  | String _ rest => ends_with_sep rest
  end.

Definition path_join (a b : string) : string :=
  if starts_with_sep b then b
  else if (String.eqb a EmptyString || ends_with_sep a)%bool then a +:+ b
  else a +:+ "/" +:+ b.

(** ** Names and keys *)

Definition get_coverage_archive_name (benchmark : string) : string :=
  "coverage-build-" +:+ benchmark +:+ ".tar.gz".

Definition get_fuzzer_benchmark_key (fuzzer benchmark : string) : string :=
  fuzzer +:+ " " +:+ benchmark.

(** ** The region extractor of [TrialCoverage] *)

(** The working context of one trial.  The directory layout comes from
    [common.experiment_utils], taken as parameters of [new_TrialCoverage]. *)
Record TrialCoverage : Type := {
  tc_fuzzer : string;
  tc_benchmark : string;
  tc_trial_num : Z;
  tc_benchmark_fuzzer_trial_dir : string;
  tc_work_dir : string;
  tc_measurement_dir : string;
  tc_report_dir : string;
  tc_profdata_file : string;
  tc_cov_summary_file : string
}.

Definition defective_msg : string :=
  "Coverage summary json file defective or missing.".

Section Extractor.

(** [json.loads] of the standard library. *)
Variable json_loads : string → result json.

Definition get_coverage_infomation (fs : FS) (coverage_summary_file : string)
  : result json :=
  match fs !! coverage_summary_file with
  | None => Raise FileNotFoundError
  | Some text =>
      match last (readlines text) with
      | None => Raise IndexError
      | Some line => json_loads line
      end
  end.

Definition hit_index : nat := 4.

(** The body of the inner loop, for one [region]. *)
Definition scan_region (region : json) : St RegionSet unit :=
  hit ← st_lift (getitem_int region hit_index);
  if ne_zero hit then
    kind ← st_lift (getitem_last region);
    if eq_zero kind then
      items ← st_lift (slice_to region hit_index);
      t ← st_lift (hashable_tuple items);
      st_modify (λ covered_regions : RegionSet, {[t]} ∪ covered_regions)
    else mret tt
  else mret tt.

(** The body of the outer loop, for one [function_data]. *)
Definition scan_function (function_data : json) : St RegionSet unit :=
  regions ← st_lift (getitem_str function_data "regions");
  items ← st_lift (iterate regions);
  for_each items scan_region.

(** [coverage_info['data'][0]['functions']], made ready for the loop. *)
Definition functions_of (coverage_info : json) : result (list json) :=
  match getitem_str coverage_info "data" with
  | Raise e => Raise e
  | Ok data =>
      match getitem_int data 0 with
      | Raise e => Raise e
      | Ok first =>
          match getitem_str first "functions" with
          | Raise e => Raise e
          | Ok functions_data => iterate functions_data
          end
      end
  end.

(** The [try] block of [get_current_covered_regions]. *)
Definition try_extract (fs : FS) (self : TrialCoverage)
  : St RegionSet unit :=
  coverage_info ← st_lift (get_coverage_infomation fs (tc_cov_summary_file self));
  functions_data ← st_lift (functions_of coverage_info);
  for_each functions_data scan_function.

(** The set returned, and the error records sent to [self.logger]. *)
Definition get_current_covered_regions (fs : FS) (self : TrialCoverage)
  : RegionSet * list string :=
  match try_extract fs self ∅ with
  | (covered_regions, Ok _) => (covered_regions, [])
  | (covered_regions, Raise _) => (covered_regions, [defective_msg])
  end.

End Extractor.

(** ** The trial registry *)

(** Modelled from the spec: the trial registry ([database.models.Trial],
    read through [database.utils.query]) is the list of its rows, in the
    order the query returns them, with the columns [get_trial_ids] reads. *)
Record Trial : Type := {
  trial_id : Z;
  trial_experiment : string;
  trial_fuzzer : string;
  trial_benchmark : string;
  trial_preempted : bool
}.

Definition get_trial_ids (trials : list Trial)
    (experiment fuzzer benchmark : string) : list Z :=
  trial_id <$>
    filter (λ t, trial_experiment t = experiment
                 ∧ trial_fuzzer t = fuzzer
                 ∧ trial_benchmark t = benchmark
                 ∧ trial_preempted t = false) trials.

(** ** The fuzzer-benchmark reducer *)

(** An error record: the format string and its arguments. *)
Abbreviation log_record := (string * list Z)%type.

(** What a worker process acts on: the files, the error log and the
    results queue [q]. *)
Record world : Type := {
  files : FS;
  error_log : list log_record;
  channel : list (gmap string RegionSet)
}.

Definition set_files (f : FS → FS) (w : world) : world :=
  {| files := f (files w); error_log := error_log w; channel := channel w |}.
Definition log_error (r : log_record) (w : world) : world :=
  {| files := files w; error_log := error_log w ++ [r]; channel := channel w |}.
Definition q_put (item : gmap string RegionSet) (w : world) : world :=
  {| files := files w; error_log := error_log w; channel := channel w ++ [item] |}.

Definition generation_failed_cycle_msg : string :=
  "Coverage summary json file generation failed for                     cycle: %d.".
Definition generation_failed_end_msg : string :=
  "Coverage summary json file generation failed in the end.".

Section Reducer.

Variable json_loads : string → result json.
(** The rows of the trial table. *)
Variable trials : list Trial.
(** [exp_utils.get_trial_dir] and [exp_utils.get_work_dir]. *)
Variable get_trial_dir : string → string → Z → string.
Variable get_work_dir : string.
(** [build_utils.get_coverage_binaries_dir], [benchmark_utils.get_fuzz_target]
    and [fuzzer_utils.get_fuzz_target_binary]. *)
Variable get_coverage_binaries_dir : string.
Variable get_fuzz_target : string → string.
Variable get_fuzz_target_binary : string → string → string.
(** [new_process.execute(command, output_file=..., expect_zero=False)]:
    the exit status and the text the process writes to [output_file];
    it raises when the process cannot be run. *)
Variable execute : list string → FS → result (Z * string).

Definition new_TrialCoverage (fuzzer benchmark : string) (trial_num : Z)
  : TrialCoverage :=
  let benchmark_fuzzer_trial_dir := get_trial_dir fuzzer benchmark trial_num in
  let work_dir := get_work_dir in
  let measurement_dir :=
    path_join (path_join work_dir "measurement-folders")
              benchmark_fuzzer_trial_dir in
  let report_dir := path_join measurement_dir "reports" in
  {| tc_fuzzer := fuzzer;
     tc_benchmark := benchmark;
     tc_trial_num := trial_num;
     tc_benchmark_fuzzer_trial_dir := benchmark_fuzzer_trial_dir;
     tc_work_dir := work_dir;
     tc_measurement_dir := measurement_dir;
     tc_report_dir := report_dir;
     tc_profdata_file := path_join report_dir "data.profdata";
     tc_cov_summary_file := path_join report_dir "cov_summary.json" |}.

(** [coverage_binaries_dir / benchmark] is taken as the join of the two. *)
Definition get_coverage_binary (benchmark : string) : string :=
  get_fuzz_target_binary (path_join get_coverage_binaries_dir benchmark)
                         (get_fuzz_target benchmark).

(** [open(self.cov_summary_file, 'w')] truncates the file, the export
    tool then writes into it. *)
Definition generate_summary (self : TrialCoverage) (cycle : Z)
    (summary_only : bool) : St world unit :=
  let coverage_binary := get_coverage_binary (tc_benchmark self) in
  let command :=
    (["llvm-cov"; "export"; "-format=text"; coverage_binary;
      "-instr-profile=" +:+ tc_profdata_file self]
     ++ (if summary_only then ["-summary-only"] else []))%list in
  st_modify (set_files (λ fs, <[tc_cov_summary_file self := EmptyString]> fs)) ;;
  w ← st_get;
  r ← st_lift (execute command (files w));
  st_modify (set_files (λ fs, <[tc_cov_summary_file self := r.2]> fs)) ;;
  if negb (Z.eqb r.1 0) then
    st_modify (log_error (generation_failed_cycle_msg, [cycle])) ;;
    if negb (Z.eqb cycle 0) then
      st_modify (log_error
        ("Coverage summary json file generation failed for                         cycle: %d.",
         [cycle]))
    else st_modify (log_error (generation_failed_end_msg, []))
  else mret tt.

(** [trial_coverage.get_current_covered_regions()] run by a worker:
    it reads the worker's files and logs to the worker's logger. *)
Definition current_covered_regions (self : TrialCoverage)
  : St world RegionSet :=
  w ← st_get;
  let r := get_current_covered_regions json_loads (files w) self in
  for_each r.2 (λ msg, st_modify (log_error (msg, []))) ;;
  mret r.1.

(** The loop over [trial_ids], on the local dictionary. *)
Fixpoint measure_trials (fuzzer benchmark key : string) (trial_ids : list Z)
    (covered_regions : gmap string RegionSet)
  : St world (gmap string RegionSet) :=
  match trial_ids with
  | [] => mret covered_regions
  | trial_id :: rest =>
      let trial_coverage := new_TrialCoverage fuzzer benchmark trial_id in
      generate_summary trial_coverage 0 false ;;
      new_covered_regions ← current_covered_regions trial_coverage;
      measure_trials fuzzer benchmark key rest
        (<[key := (covered_regions !!! key) ∪ new_covered_regions]>
           covered_regions)
  end.

Definition get_covered_region (experiment fuzzer benchmark : string)
  : St world unit :=
  let key := get_fuzzer_benchmark_key fuzzer benchmark in
  let covered_regions : gmap string RegionSet := {[key := ∅]} in
  let trial_ids := get_trial_ids trials experiment fuzzer benchmark in
  covered_regions ← measure_trials fuzzer benchmark key trial_ids covered_regions;
  st_modify (q_put covered_regions).

End Reducer.

(** ** The aggregation engine

    The pool workers and the engine run side by side; a run is a sequence
    of steps of the three kinds of [action].  A worker's call of the
    reducer, with its [q.put], is one step; the pool learns that the task
    is over in a later step, and [result.ready()] is true once it has
    learnt so of every task.  The engine's [q.get] and its call of
    [result.ready()] are two steps: [q.get] returns the oldest item of a
    queue that holds one, and on an empty queue it may run out of its
    timeout, which takes the engine into the [except queue.Empty]
    handler. *)

(** The timeout of [q.get], in seconds. *)
Definition COV_DIFF_QUEUE_GET_TIMEOUT : Z := 1.

(** [text.split(',')] *)
Fixpoint split_comma (text : string) : list string :=
  match text with
  | EmptyString => [EmptyString]
  | String c rest =>
      if Ascii.eqb c ","%char then EmptyString :: split_comma rest
      else match split_comma rest with
           | [] => [String c EmptyString]
           | word :: words => String c word :: words
           end
  end.

(** The entries of [experiment_config] the engine reads. *)
Record experiment_config : Type := {
  cfg_benchmarks : string;
  cfg_fuzzers : string;
  cfg_experiment : string
}.

(** The argument tuples handed to [pool.starmap_async], without [q]. *)
Definition get_covered_region_args (config : experiment_config)
  : list (string * string * string) :=
  let benchmarks := split_comma (cfg_benchmarks config) in
  let fuzzers := split_comma (cfg_fuzzers config) in
  let experiment := cfg_experiment config in
  fuzzer ← fuzzers; benchmark ← benchmarks; [(experiment, fuzzer, benchmark)].

(** [d.update(other)] *)
Definition dict_update (d other : gmap string RegionSet)
  : gmap string RegionSet := other ∪ d.

(** A pool task: not yet run; run ([true] when it returned, [false] when
    it raised) but not yet reported to the pool; reported. *)
Inductive task_status : Set :=
| Queued
| Ran (returned : bool)
| Reported (returned : bool).

Definition is_reported (s : task_status) : bool :=
  match s with Reported _ => true | _ => false end.

(** Where the engine stands: at [q.get], in the [except queue.Empty]
    handler before [result.ready()], or past the loop. *)
Inductive location : Set :=
| AtGet
| AtReady
| Exited.

Record engine : Type := {
  env : world;
  tasks : list (string * string * string * task_status);
  all_covered_regions : gmap string RegionSet;
  pc : location
}.

(** [result.ready()] of the asynchronous map. *)
Definition ready (e : engine) : bool :=
  forallb (λ t, is_reported t.2) (tasks e).

(** The steps of the processes: worker [i] runs its task's function,
    the pool records that task [i] is over, the engine takes one step. *)
Inductive action : Set :=
| WorkerRun (i : nat)
| WorkerReport (i : nat)
| Engine.

Section Aggregation.

(** The reducer run by the workers: [get_covered_region] without [q]. *)
Variable reducer : string → string → string → St world unit.

Definition start (config : experiment_config) (w : world) : engine :=
  {| env := w;
     tasks := (λ a, (a, Queued)) <$> get_covered_region_args config;
     all_covered_regions := ∅;
     pc := AtGet |}.

Definition step (a : action) (e : engine) : option engine :=
  match a with
  | WorkerRun i =>
      match tasks e !! i with
      | Some ((experiment, fuzzer, benchmark), Queued) =>
          let '(w, r) := reducer experiment fuzzer benchmark (env e) in
          Some {| env := w;
                  tasks := <[i := ((experiment, fuzzer, benchmark),
                                   Ran (is_ok r))]> (tasks e);
                  all_covered_regions := all_covered_regions e;
                  pc := pc e |}
      | _ => None
      end
  | WorkerReport i =>
      match tasks e !! i with
      | Some (a, Ran b) =>
          Some {| env := env e;
                  tasks := <[i := (a, Reported b)]> (tasks e);
                  all_covered_regions := all_covered_regions e;
                  pc := pc e |}
      | _ => None
      end
  | Engine =>
      match pc e with
      | AtGet =>
          match channel (env e) with
          | covered_regions :: rest =>
              Some {| env := {| files := files (env e);
                                error_log := error_log (env e);
                                channel := rest |};
                      tasks := tasks e;
                      all_covered_regions :=
                        dict_update (all_covered_regions e) covered_regions;
                      pc := AtGet |}
          | [] =>
              Some {| env := env e;
                      tasks := tasks e;
                      all_covered_regions := all_covered_regions e;
                      pc := AtReady |}
          end
      | AtReady =>
          Some {| env := env e;
                  tasks := tasks e;
                  all_covered_regions := all_covered_regions e;
                  pc := if ready e then Exited else AtGet |}
      | Exited => None
      end
  end.

(** A schedule, run from left to right. *)
Fixpoint run (schedule : list action) (e : engine) : option engine :=
  match schedule with
  | [] => Some e
  | a :: rest =>
      match step a e with
      | Some e' => run rest e'
      | None => None
      end
  end.

(** The dictionary [get_all_covered_regions] returns once past the loop:
    each set turned into a list. *)
Definition returned_dict (e : engine) : gmap string (list Region) :=
  elements <$> all_covered_regions e.

(** The value of a call of [get_all_covered_regions] whose processes take
    their steps in the order of [schedule]: [None] when the schedule is
    not one of the call or does not take the engine past the loop. *)
Definition get_all_covered_regions (config : experiment_config) (w : world)
    (schedule : list action) : option (gmap string (list Region)) :=
  match run schedule (start config w) with
  | Some e =>
      match pc e with
      | Exited => Some (returned_dict e)
      | _ => None
      end
  | None => None
  end.

End Aggregation.

(** ** Staging of the coverage archives *)

Section Staging.

(** [os.environ] *)
Variable environ : gmap string string.

(** The state of the object store and of the local disk, and the calls
    made on them: [filestore_utils.ls(path, must_exist=False).retcode],
    [filesystem.create_directory], [filestore_utils.cp],
    [tarfile.open(path, 'r:gz').extractall(dir)] and [os.remove]. *)
Variable Store : Type.
Variable ls_retcode : string → Store → Z.
Variable create_directory : string → St Store unit.
Variable cp : string → string → St Store unit.
Variable tar_extractall : string → string → St Store unit.
Variable os_remove : string → St Store unit.

Definition get_experiment_filestore_path (experiment_name : string) : string :=
  let experiment_filestore :=
    match environ !! "EXPERIMENT_FILESTORE" with
    | Some v => v
    | None => "gs://fuzzbench-data"
    end in
  path_join experiment_filestore experiment_name.

Definition get_benchmark_archive (experiment_name benchmark : string) : string :=
  let experiment_filestore_dir := get_experiment_filestore_path experiment_name in
  let archive_name := get_coverage_archive_name benchmark in
  path_join (path_join experiment_filestore_dir "coverage-binaries") archive_name.

(** The body of [if archive_exist:], up to the [break]. *)
Definition stage_archive (archive_filestore_path report_dir benchmark : string)
  : St Store unit :=
  let benchmark_report_dir := path_join report_dir benchmark in
  create_directory benchmark_report_dir ;;
  cp archive_filestore_path benchmark_report_dir ;;
  let archive_name := get_coverage_archive_name benchmark in
  let archive_path := path_join benchmark_report_dir archive_name in
  tar_extractall archive_path benchmark_report_dir ;;
  os_remove archive_path.

Fixpoint set_up_coverage_file (experiment_names : list string)
    (report_dir benchmark : string) : St Store unit :=
  match experiment_names with
  | [] => mret tt
  | experiment :: rest =>
      let archive_filestore_path := get_benchmark_archive experiment benchmark in
      s ← st_get;
      let archive_exist := Z.eqb (ls_retcode archive_filestore_path s) 0 in
      if archive_exist then
        stage_archive archive_filestore_path report_dir benchmark
      else set_up_coverage_file rest report_dir benchmark
  end.

Definition set_up_coverage_files (experiment_names : list string)
    (report_dir : string) (benchmarks : list string) : St Store unit :=
  for_each benchmarks (set_up_coverage_file experiment_names report_dir).

End Staging.

(** ** A decoder for examples

    [loads] decodes the JSON documents made of objects, arrays, strings
    without escapes, integers, [true], [false] and [null]; it rejects
    every other text.  It stands for [json.loads] in the examples. *)

Definition is_ws (c : ascii) : bool :=
  (Ascii.eqb c " " || Ascii.eqb c "009" || Ascii.eqb c "010" || Ascii.eqb c "013")%char%bool.

Fixpoint skip_ws (s : string) : string :=
  match s with
  | String c rest => if is_ws c then skip_ws rest else s
  | EmptyString => s
  end.

Definition digit_of (c : ascii) : option Z :=
  let n := nat_of_ascii c in
  if (48 <=? n)%nat && (n <=? 57)%nat then Some (Z.of_nat n - 48)%Z else None.

Fixpoint parse_digits (s : string) (acc : Z) : Z * string :=
  match s with
  | String c rest =>
      match digit_of c with
      | Some d => parse_digits rest (10 * acc + d)%Z
      | None => (acc, s)
      end
  | EmptyString => (acc, s)
  end.

(** An integer: no leading zero, no fraction, no exponent. *)
Definition parse_int (s : string) : option (Z * string) :=
  let '(neg, body) :=
    match s with
    | String "-" rest => (true, rest)
    | _ => (false, s)
    end in
  match body with
  | String c rest =>
      match digit_of c with
      | None => None
      | Some d =>
          let '(n, rest') :=
            if Z.eqb d 0 then (0%Z, rest) else parse_digits rest d in
          match rest' with
          | String "." _ | String "e" _ | String "E" _ => None
          | _ => Some (if neg : bool then (- n)%Z else n, rest')
          end
      end
  | EmptyString => None
  end.

Definition dquote : ascii := "034"%char.

Fixpoint parse_string_body (s : string) : option (string * string) :=
  match s with
  | EmptyString => None
  | String c rest =>
      if Ascii.eqb c dquote then Some (EmptyString, rest)
      else if (Ascii.eqb c "\"%char || (nat_of_ascii c <? 32)%nat)%bool then None
      else match parse_string_body rest with
           | Some (body, rest') => Some (String c body, rest')
           | None => None
           end
  end.

(** A later member replaces an earlier one with the same name. *)
Fixpoint set_member (k : string) (v : json) (members : list (string * json))
  : list (string * json) :=
  match members with
  | [] => [(k, v)]
  | (k', v') :: rest =>
      if String.eqb k k' then (k, v) :: rest
      else (k', v') :: set_member k v rest
  end.

Section Decoder.

Variable parse_value : string → option (json * string).

Fixpoint parse_items (fuel : nat) (s : string) (acc : list json)
  : option (json * string) :=
  match fuel with
  | O => None
  | S fuel' =>
      match parse_value s with
      | None => None
      | Some (v, rest) =>
          match skip_ws rest with
          | String "," rest' => parse_items fuel' rest' (acc ++ [v])
          | String "]" rest' => Some (JArr (acc ++ [v]), rest')
          | _ => None
          end
      end
  end.

Fixpoint parse_members (fuel : nat) (s : string) (acc : list (string * json))
  : option (json * string) :=
  match fuel with
  | O => None
  | S fuel' =>
      match skip_ws s with
      | String c rest =>
          if negb (Ascii.eqb c dquote) then None else
          match parse_string_body rest with
          | None => None
          | Some (k, rest1) =>
              match skip_ws rest1 with
              | String ":" rest2 =>
                  match parse_value rest2 with
                  | None => None
                  | Some (v, rest3) =>
                      match skip_ws rest3 with
                      | String "," rest4 =>
                          parse_members fuel' rest4 (set_member k v acc)
                      | String "}" rest4 =>
                          Some (JObj (set_member k v acc), rest4)
                      | _ => None
                      end
                  end
              | _ => None
              end
          end
      | _ => None
      end
  end.

End Decoder.

Fixpoint parse_value (fuel : nat) (s : string) : option (json * string) :=
  match fuel with
  | O => None
  | S fuel' =>
      match skip_ws s with
      | String "[" rest =>
          match skip_ws rest with
          | String "]" rest' => Some (JArr [], rest')
          | _ => parse_items (parse_value fuel') (String.length rest) rest []
          end
      | String "{" rest =>
          match skip_ws rest with
          | String "}" rest' => Some (JObj [], rest')
          | _ => parse_members (parse_value fuel') (String.length rest) rest []
          end
      | String "t" (String "r" (String "u" (String "e" rest))) =>
          Some (JBool true, rest)
      | String "f" (String "a" (String "l" (String "s" (String "e" rest)))) =>
          Some (JBool false, rest)
      | String "n" (String "u" (String "l" (String "l" rest))) =>
          Some (JNull, rest)
      | String c rest =>
          if Ascii.eqb c dquote then
            match parse_string_body rest with
            | Some (body, rest') => Some (JStr body, rest')
            | None => None
            end
          else
            match parse_int (String c rest) with
            | Some (n, rest') => Some (JInt n, rest')
            | None => None
            end
      | EmptyString => None
      end
  end.

Definition loads (text : string) : result json :=
  match parse_value (S (String.length text)) text with
  | Some (v, rest) =>
      match skip_ws rest with
      | EmptyString => Ok v
      | _ => Raise JSONDecodeError
      end
  | None => Raise JSONDecodeError
  end.

(** ** Predicates used in the statements *)

(** A text that is one line: not empty, a newline at most at its end. *)
Fixpoint single_line (s : string) : bool :=
  match s with
  | EmptyString => false
  | String c EmptyString => true
  | String c rest => negb (Ascii.eqb c newline) && single_line rest
  end.




(** ** Data of the examples *)

(** The example documents are written with ['] for the double quote. *)
Fixpoint dq (s : string) : string :=
  match s with
  | EmptyString => EmptyString
  | String c rest => String (if Ascii.eqb c "'"%char then dquote else c) (dq rest)
  end.

Definition nl : string := String newline EmptyString.

(** A region record of the export tool: a JSON array of integers. *)
Definition region_record (r : list Z) : json := JArr (JInt <$> r).

(** A document in which [functions] are the region records of the
    functions: [info['data'][0]['functions'][i]['regions'][j]] is the
    record [functions[i][j]].  Other members may be present. *)
Definition summary_shape (coverage_info : json)
    (functions : list (list (list Z))) : Prop :=
  ∃ first others functions_data,
    getitem_str coverage_info "data" = Ok (JArr (first :: others))
    ∧ getitem_str first "functions" = Ok (JArr functions_data)
    ∧ Forall2 (λ function_data regions,
                 getitem_str function_data "regions"
                 = Ok (JArr (region_record <$> regions)))
              functions_data functions.

(** The fifth field is not zero and the last field is zero. *)
Definition hit_and_code (r : list Z) : bool :=
  match r !! 4%nat, last r with
  | Some hit, Some kind => negb (Z.eqb hit 0) && Z.eqb kind 0
  | _, _ => false
  end.

(** The first four fields. *)
Definition region_identity (r : list Z) : Region := FInt <$> take 4 r.

Definition covered_regions_of (regions : list (list Z)) : RegionSet :=
  list_to_set (region_identity <$> filter (λ r, hit_and_code r = true) regions).

Definition example_trial : TrialCoverage :=
  {| tc_fuzzer := "afl";
     tc_benchmark := "b1";
     tc_trial_num := 1;
     tc_benchmark_fuzzer_trial_dir := "b1-afl/trial-1";
     tc_work_dir := "/work";
     tc_measurement_dir := "/work/measurement-folders/b1-afl/trial-1";
     tc_report_dir := "/work/measurement-folders/b1-afl/trial-1/reports";
     tc_profdata_file :=
       "/work/measurement-folders/b1-afl/trial-1/reports/data.profdata";
     tc_cov_summary_file :=
       "/work/measurement-folders/b1-afl/trial-1/reports/cov_summary.json" |}.

(** Two functions; a region hit three times, the same region again, a
    region never hit and a hit region that is not a code region. *)
Definition example_summary : string :=
  dq "{'data':[{'files':[],'functions':[{'name':'f','regions':[[10,1,10,5,3,0,0,0],[20,3,20,9,0,0,0,0]]},{'name':'g','regions':[[10,1,10,5,3,0,0,0],[30,1,30,2,7,0,0,2]]}]}],'type':'llvm.coverage.json.export','version':'2.0.1'}".

(** A summary whose second region record stops after two fields. *)
Definition defective_summary : string :=
  dq "{'data':[{'functions':[{'regions':[[10,1,10,5,3,0,0,0],[20,3]]}]}]}".

Definition example_functions : list (list (list Z)) :=
  [ [ [10; 1; 10; 5; 3; 0; 0; 0]; [20; 3; 20; 9; 0; 0; 0; 0] ];
    [ [10; 1; 10; 5; 3; 0; 0; 0]; [30; 1; 30; 2; 7; 0; 0; 2] ] ]%Z.

Definition example_files (summary : string) : FS :=
  {[ tc_cov_summary_file example_trial := summary ]}.

(** The key of an argument tuple [(experiment, fuzzer, benchmark)]. *)
Definition key_of_args (a : string * string * string) : string :=
  get_fuzzer_benchmark_key a.1.2 a.2.


(** An item a reducer puts for one of the dispatched argument tuples. *)
Definition item_from (trials : list Trial) (args : list (string * string * string))
    (item : gmap string RegionSet) : Prop :=
  ∃ a covered,
    a ∈ args ∧ item = {[key_of_args a := covered]}
    ∧ (get_trial_ids trials a.1.1 a.1.2 a.2 = [] → covered = ∅).

(** What holds of the engine at every point of a run. *)
Record engine_inv (trials : list Trial) (args : list (string * string * string))
    (e : engine) : Prop := {
  inv_tasks : (tasks e).*1 = args;
  inv_channel : Forall (item_from trials args) (channel (env e));
  inv_merged : ∀ k covered,
    all_covered_regions e !! k = Some covered →
    item_from trials args {[k := covered]};
  inv_kept : ∀ i a st,
    tasks e !! i = Some (a, st) → st = Ran true ∨ st = Reported true →
    key_of_args a ∈ dom (all_covered_regions e)
    ∨ ∃ item, item ∈ channel (env e) ∧ key_of_args a ∈ dom item;
  inv_exit : pc e = Exited → ready e = true
}.

(** *** An experiment with two fuzzers and one benchmark

    The trials 1 and 2 of afl on b1 are finished, trial 3 was preempted;
    libfuzzer has no trial in the experiment.  The export tool prints one
    hit region for trial 1 and two for trial 2. *)

Definition example_trials : list Trial :=
  [ {| trial_id := 1; trial_experiment := "exp"; trial_fuzzer := "afl";
       trial_benchmark := "b1"; trial_preempted := false |};
    {| trial_id := 2; trial_experiment := "exp"; trial_fuzzer := "afl";
       trial_benchmark := "b1"; trial_preempted := false |};
    {| trial_id := 3; trial_experiment := "exp"; trial_fuzzer := "afl";
       trial_benchmark := "b1"; trial_preempted := true |};
    {| trial_id := 4; trial_experiment := "other"; trial_fuzzer := "libfuzzer";
       trial_benchmark := "b1"; trial_preempted := false |} ].

Definition example_get_trial_dir (fuzzer benchmark : string) (trial_num : Z)
  : string :=
  benchmark +:+ "-" +:+ fuzzer +:+ "/trial-" +:+ pretty trial_num.

Definition example_get_fuzz_target_binary (directory target : string) : string :=
  path_join directory target.

Definition example_summary_1 : string :=
  dq "{'data':[{'functions':[{'regions':[[10,1,10,5,1,0,0,0]]}]}]}".

Definition example_summary_2 : string :=
  "warning: 3 functions have mismatched data" +:+ nl +:+
  dq "{'data':[{'functions':[{'regions':[[10,1,10,5,4,0,0,0],[20,3,20,9,2,0,0,0],[30,1,30,4,0,0,0,0]]}]}]}".

Definition example_execute (command : list string) (fs : FS)
  : result (Z * string) :=
  match command !! 4%nat with
  | Some profile =>
      if String.eqb profile
           "-instr-profile=/work/measurement-folders/b1-afl/trial-1/reports/data.profdata"
      then Ok (0%Z, example_summary_1)
      else if String.eqb profile
           "-instr-profile=/work/measurement-folders/b1-afl/trial-2/reports/data.profdata"
      then Ok (0%Z, example_summary_2)
      else Ok (1%Z, EmptyString)
  | None => Raise OSError
  end.

Definition example_reducer : string → string → string → St world unit :=
  get_covered_region loads example_trials example_get_trial_dir "/work"
    "/work/coverage-binaries" (λ _, "fuzz-target")
    example_get_fuzz_target_binary example_execute.

Definition empty_world : world :=
  {| files := ∅; error_log := []; channel := [] |}.

Definition example_config : experiment_config :=
  {| cfg_benchmarks := "b1"; cfg_fuzzers := "afl,libfuzzer";
     cfg_experiment := "exp" |}.

(** Both workers run, the engine receives the two items, times out and
    finds the pool ready. *)
Definition example_schedule : list action :=
  [ WorkerRun 1; Engine; WorkerRun 0; WorkerReport 1; Engine; Engine;
    Engine; WorkerReport 0; Engine; Engine ].

Definition run_or_start (reducer : string → string → string → St world unit)
    (schedule : list action) (config : experiment_config) : engine :=
  match run reducer schedule (start config empty_world) with
  | Some e => e
  | None => start config empty_world
  end.

Definition example_end : engine :=
  run_or_start example_reducer example_schedule example_config.

(** One pair; the worker puts its item after the engine's [q.get] timed
    out and is reported before the engine calls [result.ready()]. *)
Definition race_config : experiment_config :=
  {| cfg_benchmarks := "b1"; cfg_fuzzers := "afl"; cfg_experiment := "exp" |}.

Definition race_schedule : list action :=
  [ Engine; WorkerRun 0; WorkerReport 0; Engine ].




(** An engine that holds a set for the key of an item it is about to
    receive. *)
Definition region_a : Region := [FInt 10; FInt 1; FInt 10; FInt 5].
Definition region_b : Region := [FInt 20; FInt 3; FInt 20; FInt 9].

Definition overwrite_engine : engine :=
  {| env := {| files := ∅; error_log := [];
               channel := [ {[ "afl b1" := {[ region_b ]} ]} ] |};
     tasks := [ ("exp", "afl", "b1", Reported true);
                ("exp", "afl", "b1", Ran true) ];
     all_covered_regions := {[ "afl b1" := {[ region_a ]} ]};
     pc := AtGet |}.

(** *** An object store that records the calls made on it *)

Inductive store_event : Set :=
| EvCreateDirectory (directory : string)
| EvCp (source destination : string)
| EvExtractAll (archive directory : string)
| EvRemove (path : string).

Definition record_event (ev : store_event) : St (list store_event) unit :=
  st_modify (λ s, s ++ [ev]).

(** The archives of exp2 and exp3 are in the store, that of exp1 is not. *)
Definition example_ls_retcode (path : string) (s : list store_event) : Z :=
  if String.eqb path "gs://fuzzbench-data/exp2/coverage-binaries/coverage-build-b1.tar.gz"
     || String.eqb path "gs://fuzzbench-data/exp3/coverage-binaries/coverage-build-b1.tar.gz"
  then 0 else 1.

(** An engine about to receive an item whose key it does not hold. *)
Definition fresh_key_engine : engine :=
  {| env := {| files := ∅; error_log := [];
               channel := [ {[ "libfuzzer b1" := {[ region_b ]} ]} ] |};
     tasks := [ ("exp", "afl", "b1", Reported true);
                ("exp", "libfuzzer", "b1", Ran true) ];
     all_covered_regions := {[ "afl b1" := {[ region_a ]} ]};
     pc := AtGet |}.

(** Computations that leave the results queue as it is. *)
Definition keeps_channel {A} (m : St world A) : Prop :=
  ∀ w, channel (m w).1 = channel w.


(** ** The report pipeline *)

Definition get_profdata_file_name (trial_id : Z) : string :=
  "data-" +:+ pretty trial_id +:+ ".profdata".

(** The state of one [CoverageReporter]. *)
Record CoverageReporter : Type := {
  cr_fuzzer : string;
  cr_benchmark : string;
  cr_experiments : list string;
  cr_report_dir : string;
  cr_benchmark_report_dir : string;
  cr_fuzzer_report_dir : string;
  cr_merged_profdata_file : string;
  cr_source_files : string;
  cr_binary_file : string
}.

Definition merging_failed_msg : string := "Profdata files merging failed.".

Definition report_failed_msg (fuzzer benchmark : string) : string :=
  "Coverage report generation failed for fuzzer: " +:+ fuzzer
  +:+ ",benchmark: " +:+ benchmark +:+ ".".

Section Reporter.

Variable environ : gmap string string.
Variable trials : list Trial.
(** [exp_utils.get_trial_dir], [benchmark_utils.get_fuzz_target] and
    [fuzzer_utils.get_fuzz_target_binary]. *)
Variable get_trial_dir : string → string → Z → string.
Variable get_fuzz_target : string → string.
Variable get_fuzz_target_binary : string → string → string.

(** The object store, the local disk and the logger, and the calls made
    on them.  [execute expect_zero command] is [new_process.execute]; its
    first argument is [None] where the call leaves [expect_zero] to its
    default; its value is [result.retcode]. *)
Variable Store : Type.
Variable ls_retcode : string → Store → Z.
Variable create_directory : string → St Store unit.
Variable cp : string → string → St Store unit.
Variable tar_extractall : string → string → St Store unit.
Variable os_remove : string → St Store unit.
Variable os_listdir : string → St Store (list string).
Variable execute : option bool → list string → St Store Z.
Variable logger_error : string → St Store unit.

Definition new_CoverageReporter (fuzzer benchmark : string)
    (experiments : list string) (report_dir : string) : CoverageReporter :=
  let benchmark_report_dir := path_join report_dir benchmark in
  let fuzzer_report_dir := path_join benchmark_report_dir fuzzer in
  let fuzz_target := get_fuzz_target benchmark in
  {| cr_fuzzer := fuzzer;
     cr_benchmark := benchmark;
     cr_experiments := experiments;
     cr_report_dir := report_dir;
     cr_benchmark_report_dir := benchmark_report_dir;
     cr_fuzzer_report_dir := fuzzer_report_dir;
     cr_merged_profdata_file := path_join fuzzer_report_dir "merged.profdata";
     cr_source_files := path_join benchmark_report_dir "src";
     cr_binary_file := get_fuzz_target_binary benchmark_report_dir fuzz_target |}.

(** The module function [merge_profdata_files]. *)
Definition merge_profdata_files (src_files : list string) (dst_file : string)
  : St Store Z :=
  let command :=
    ["llvm-profdata-11"; "merge"; "-sparse"] ++ src_files ++ ["-o"; dst_file] in
  execute (Some false) command.

(** The method [CoverageReporter.merge_profdata_files]. *)
Definition reporter_merge_profdata_files (self : CoverageReporter)
  : St Store unit :=
  profdata_files ← os_listdir (cr_fuzzer_report_dir self);
  let files_to_merge :=
    path_join (cr_fuzzer_report_dir self) <$> profdata_files in
  result ← merge_profdata_files files_to_merge (cr_merged_profdata_file self);
  if negb (Z.eqb result 0) then logger_error merging_failed_msg else mret tt.

Definition get_profdata_file_path (self : CoverageReporter)
    (experiment : string) (trial_id : Z) : string :=
  let benchmark_fuzzer_trial_dir :=
    get_trial_dir (cr_fuzzer self) (cr_benchmark self) trial_id in
  let experiment_filestore_dir :=
    get_experiment_filestore_path environ experiment in
  let profdata_file_name := get_profdata_file_name trial_id in
  path_join
    (path_join (path_join experiment_filestore_dir "experiment-folders")
               benchmark_fuzzer_trial_dir)
    profdata_file_name.

(** The list [files_to_merge] of [fetch_profdata_files]. *)
Definition files_to_fetch (self : CoverageReporter) : list string :=
  experiment ← cr_experiments self;
  get_profdata_file_path self experiment
    <$> get_trial_ids trials experiment (cr_fuzzer self) (cr_benchmark self).

Definition fetch_profdata_files (self : CoverageReporter) : St Store unit :=
  let files_to_merge := files_to_fetch self in
  create_directory (cr_fuzzer_report_dir self) ;;
  for_each files_to_merge (λ file_path, cp file_path (cr_fuzzer_report_dir self)).

(** The method [CoverageReporter.generate_cov_report]. *)
Definition reporter_generate_cov_report (self : CoverageReporter)
  : St Store unit :=
  let command :=
    [ "llvm-cov-11"; "show"; "-format=html";
      "-path-equivalence=/," +:+ cr_source_files self;
      "-output-dir=" +:+ cr_fuzzer_report_dir self;
      "-Xdemangler"; "c++filt"; "-Xdemangler"; "-n"; cr_binary_file self;
      "-instr-profile=" +:+ cr_merged_profdata_file self ] in
  result ← execute None command;
  if negb (Z.eqb result 0)
  then logger_error (report_failed_msg (cr_fuzzer self) (cr_benchmark self))
  else mret tt.

(** The module function [generate_cov_report]. *)
Definition generate_cov_report (experiments : list string)
    (benchmark fuzzer report_dir : string) : St Store unit :=
  let generator := new_CoverageReporter fuzzer benchmark experiments report_dir in
  fetch_profdata_files generator ;;
  reporter_merge_profdata_files generator ;;
  reporter_generate_cov_report generator.

(** The argument tuples [generate_cov_reports] hands to [pool.starmap]. *)
Definition generate_cov_report_args (experiments benchmarks fuzzers : list string)
    (report_dir : string) : list (list string * string * string * string) :=
  benchmark ← benchmarks; fuzzer ← fuzzers;
  [(experiments, benchmark, fuzzer, report_dir)].

Definition generate_cov_reports_seq (experiments benchmarks fuzzers : list string)
    (report_dir : string) : St Store unit :=
  set_up_coverage_files environ Store ls_retcode create_directory cp
    tar_extractall os_remove experiments report_dir benchmarks ;;
  for_each benchmarks (λ benchmark,
    for_each fuzzers (λ fuzzer,
      generate_cov_report experiments benchmark fuzzer report_dir)).

End Reporter.

(** ** Further predicates and data of the examples *)

Fixpoint count_commas (s : string) : nat :=
  match s with
  | EmptyString => 0
  | String c rest => (if Ascii.eqb c ","%char then 1 else 0) + count_commas rest
  end.

(** [region] is an array whose fifth item is not zero and whose last item
    is zero, and [t] is the tuple of its first four items. *)
Definition hit_code_record (region : json) (t : Region) : Prop :=
  ∃ items hit kind,
    region = JArr items
    ∧ items !! 4%nat = Some hit ∧ ne_zero hit = true
    ∧ last items = Some kind ∧ eq_zero kind = true
    ∧ hashable_tuple (take 4 items) = Ok t.

(** [region] is met by the two loops over [coverage_info]. *)
Definition record_of (coverage_info region : json) : Prop :=
  ∃ functions_data function_data regions items,
    functions_of coverage_info = Ok functions_data
    ∧ function_data ∈ functions_data
    ∧ getitem_str function_data "regions" = Ok regions
    ∧ iterate regions = Ok items
    ∧ region ∈ items.

(** The command of [generate_summary]. *)
Definition export_command (coverage_binary profdata_file : string)
    (summary_only : bool) : list string :=
  ["llvm-cov"; "export"; "-format=text"; coverage_binary;
   "-instr-profile=" +:+ profdata_file]
  ++ (if summary_only then ["-summary-only"] else []).

(** The error records of [generate_summary] for an exit status. *)
Definition generation_records (retcode cycle : Z) : list log_record :=
  if Z.eqb retcode 0 then []
  else [ (generation_failed_cycle_msg, [cycle]);
         if Z.eqb cycle 0 then (generation_failed_end_msg, [])
         else ("Coverage summary json file generation failed for                         cycle: %d.",
               [cycle]) ].

(** The keys of the items of a queue, in order. *)
Definition keys_of_items (items : list (gmap string RegionSet)) : list string :=
  items ≫= (λ item, elements (dom item)).

(** The set the last item that has [k] gives it. *)
Definition last_received (k : string) (items : list (gmap string RegionSet))
  : option RegionSet :=
  last (omap (λ item : gmap string RegionSet, item !! k) items).

(** An engine whose tasks are all reported, with two items to receive. *)
Definition drain_engine : engine :=
  {| env := {| files := ∅; error_log := [];
               channel := [ {[ "afl b1" := {[ region_a ]} ]};
                            {[ "libfuzzer b1" := {[ region_b ]} ]} ] |};
     tasks := [ ("exp", "afl", "b1", Reported true);
                ("exp", "libfuzzer", "b1", Reported true) ];
     all_covered_regions := ∅;
     pc := AtGet |}.

(** A store that records the calls, with a listing and an exit status
    fixed in advance. *)
Inductive call : Set :=
| CallCreateDirectory (directory : string)
| CallCp (source destination : string)
| CallExtractAll (archive directory : string)
| CallRemove (path : string)
| CallExecute (expect_zero : option bool) (command : list string)
| CallLogError (message : string).

Definition record_call (c : call) : St (list call) unit :=
  st_modify (λ s, s ++ [c]).

(** The regions the export of one trial gives: those extracted from the
    text the export tool prints for the trial's profile. *)
Definition trial_contribution (json_loads : string → result json)
    (get_trial_dir : string → string → Z → string) (get_work_dir : string)
    (get_coverage_binaries_dir : string) (get_fuzz_target : string → string)
    (get_fuzz_target_binary : string → string → string)
    (execute : list string → FS → result (Z * string))
    (fuzzer benchmark : string) (trial_id : Z) : RegionSet :=
  let self := new_TrialCoverage get_trial_dir get_work_dir fuzzer benchmark
                trial_id in
  match execute
          (export_command
             (get_coverage_binary get_coverage_binaries_dir get_fuzz_target
                get_fuzz_target_binary benchmark)
             (tc_profdata_file self) false) ∅ with
  | Ok (_, text) =>
      (get_current_covered_regions json_loads
         {[ tc_cov_summary_file self := text ]} self).1
  | Raise _ => ∅
  end.

(** The export tool can be run on the profile of the trial. *)
Definition export_runs (get_trial_dir : string → string → Z → string)
    (get_work_dir : string)
    (get_coverage_binaries_dir : string) (get_fuzz_target : string → string)
    (get_fuzz_target_binary : string → string → string)
    (execute : list string → FS → result (Z * string))
    (fuzzer benchmark : string) (trial_id : Z) : Prop :=
  is_ok (execute
           (export_command
              (get_coverage_binary get_coverage_binaries_dir get_fuzz_target
                 get_fuzz_target_binary benchmark)
              (tc_profdata_file
                 (new_TrialCoverage get_trial_dir get_work_dir fuzzer benchmark
                    trial_id)) false) ∅) = true.

(** The records of [example_summary], in another order and spread over
    three functions. *)
Definition example_summary_shuffled : string :=
  dq "{'data':[{'functions':[{'regions':[[30,1,30,2,7,0,0,2]]},{'regions':[[20,3,20,9,0,0,0,0],[10,1,10,5,3,0,0,0]]},{'regions':[]}]}]}".

Definition example_functions_shuffled : list (list (list Z)) :=
  [ [ [30; 1; 30; 2; 7; 0; 0; 2] ];
    [ [20; 3; 20; 9; 0; 0; 0; 0]; [10; 1; 10; 5; 3; 0; 0; 0] ];
    [] ]%Z.

(** The trials of the example, with the rows of afl in the other order. *)
Definition example_trials_reordered : list Trial :=
  [ {| trial_id := 4; trial_experiment := "other"; trial_fuzzer := "libfuzzer";
       trial_benchmark := "b1"; trial_preempted := false |};
    {| trial_id := 2; trial_experiment := "exp"; trial_fuzzer := "afl";
       trial_benchmark := "b1"; trial_preempted := false |};
    {| trial_id := 1; trial_experiment := "exp"; trial_fuzzer := "afl";
       trial_benchmark := "b1"; trial_preempted := false |} ].

(** [generate_summary] and the trial contributions of the example. *)
Definition example_generate_summary
  : TrialCoverage → Z → bool → St world unit :=
  generate_summary "/work/coverage-binaries" (λ _, "fuzz-target")
    example_get_fuzz_target_binary example_execute.

Definition example_contribution : string → string → Z → RegionSet :=
  trial_contribution loads example_get_trial_dir "/work"
    "/work/coverage-binaries" (λ _, "fuzz-target")
    example_get_fuzz_target_binary example_execute.

(** A trial of libfuzzer, for whose profile the export tool exits with 1. *)
Definition example_failing_trial : TrialCoverage :=
  new_TrialCoverage example_get_trial_dir "/work" "libfuzzer" "b1" 9.

Definition example_trial_2 : TrialCoverage :=
  new_TrialCoverage example_get_trial_dir "/work" "afl" "b1" 2.

(** The calls of the recording store: a copy that raises, a listing with
    one profile, and a process that exits with the status 1. *)
Definition raising_cp (source destination : string)
  : St (list store_event) unit :=
  st_lift (Raise OSError).

Definition example_listdir (directory : string) : St (list call) (list string) :=
  mret ["data-1.profdata"].

Definition exit_1_execute (expect_zero : option bool) (command : list string)
  : St (list call) Z :=
  λ s, (s ++ [CallExecute expect_zero command], Ok 1%Z).

Definition example_reporter : CoverageReporter :=
  new_CoverageReporter (λ _, "fuzz-target") example_get_fuzz_target_binary
    "afl" "b1" ["exp"] "/reports".

Definition example_libfuzzer_reporter : CoverageReporter :=
  new_CoverageReporter (λ _, "fuzz-target") example_get_fuzz_target_binary
    "libfuzzer" "b1" ["exp"] "/reports".

(** * Properties *)

(** ** The state monad *)

Lemma st_bind_unfold {S A B} (m : St S A) (k : A → St S B) s :
  (m ≫= k) s = match m s with
               | (s', Ok a) => k a s'
               | (s', Raise e) => (s', Raise e)
               end.
Proof. reflexivity. Qed.

Lemma for_each_app {S A} (l1 l2 : list A) (body : A → St S unit) s :
  for_each (l1 ++ l2) body s =
  match for_each l1 body s with
  | (s', Ok _) => for_each l2 body s'
  | (s', Raise e) => (s', Raise e)
  end.
Proof.
  revert s. induction l1 as [|x l1 IH]; intros s; simpl.
  - reflexivity.
  - unfold st_bind. destruct (body x s) as [s' [[]|e]]; [apply IH | reflexivity].
Qed.

(** ** Lines of a text *)

Lemma readlines_nil s : readlines s = [] → s = EmptyString.
Proof.
  destruct s as [|c s]; [done|]. simpl.
  destruct (Ascii.eqb c newline); [done|].
  by destruct (readlines s).
Qed.





(** ** Reading the summary file *)




(** ** The key of a pair *)

Lemma append_nil (s : string) : EmptyString +:+ s = s.
Proof. reflexivity. Qed.

Lemma append_cons (c : ascii) (s t : string) :
  String c s +:+ t = String c (s +:+ t).
Proof. reflexivity. Qed.






(** ** The region extractor *)

Lemma hashable_tuple_ints (l : list Z) :
  hashable_tuple (JInt <$> l) = Ok (FInt <$> l).
Proof.
  induction l as [|z l IH]; [done|].
  rewrite fmap_cons. cbn [hashable_tuple hashable]. by rewrite IH.
Qed.

Section ExtractorFacts.

Variable json_loads : string → result json.

Lemma scan_region_record (r : list Z) (covered : RegionSet) :
  (5 ≤ length r)%nat →
  scan_region (region_record r) covered =
  (if hit_and_code r then {[region_identity r]} ∪ covered else covered, Ok tt).
Proof.
  intros Hlen. unfold scan_region, hit_and_code, region_record, hit_index.
  destruct (lookup_lt_is_Some_2 r 4) as [hit Hhit]; [lia|].
  destruct (last r) as [kind|] eqn:Hkind.
  2:{ apply last_None in Hkind. subst r. simpl in Hlen. lia. }
  rewrite Hhit. rewrite st_bind_unfold. unfold st_lift at 1.
  simpl getitem_int. rewrite list_lookup_fmap, Hhit. simpl.
  destruct (Z.eqb hit 0); simpl; [reflexivity|].
  rewrite st_bind_unfold. unfold st_lift at 1.
  rewrite fmap_last, Hkind. simpl.
  destruct (Z.eqb kind 0); simpl; [|reflexivity].
  rewrite st_bind_unfold. unfold st_lift at 1.
  rewrite st_bind_unfold. unfold st_lift at 1.
  rewrite <- fmap_take, hashable_tuple_ints. reflexivity.
Qed.

Lemma scan_region_records (rs : list (list Z)) (covered : RegionSet) :
  Forall (λ r, (5 ≤ length r)%nat) rs →
  for_each (region_record <$> rs) scan_region covered =
  (covered_regions_of rs ∪ covered, Ok tt).
Proof.
  intros H. revert covered.
  induction H as [|r rs Hr _ IH]; intros covered.
  - unfold covered_regions_of. simpl. unfold st_ret. f_equal. set_solver.
  - simpl. unfold st_bind. rewrite (scan_region_record _ _ Hr), IH.
    f_equal. unfold covered_regions_of. rewrite filter_cons.
    destruct (hit_and_code r) eqn:E.
    + rewrite decide_True by done. set_solver.
    + rewrite decide_False by done. set_solver.
Qed.

Lemma scan_functions_shape (functions_data : list json) (functions : list (list (list Z)))
    (covered : RegionSet) :
  Forall2 (λ function_data regions,
             getitem_str function_data "regions"
             = Ok (JArr (region_record <$> regions)))
          functions_data functions →
  Forall (Forall (λ r, (5 ≤ length r)%nat)) functions →
  for_each functions_data scan_function covered =
  (covered_regions_of (concat functions) ∪ covered, Ok tt).
Proof.
  intros H. revert covered.
  induction H as [|fd regs fds functions Hfd _ IH]; intros covered Hall.
  - unfold covered_regions_of. simpl. unfold st_ret. f_equal. set_solver.
  - apply Forall_cons in Hall as [Hregs Hall].
    simpl. unfold st_bind at 1. unfold scan_function at 1.
    rewrite st_bind_unfold. unfold st_lift at 1. rewrite Hfd.
    rewrite st_bind_unfold. unfold st_lift at 1. simpl iterate.
    cbv beta iota. rewrite (scan_region_records _ _ Hregs), (IH _ Hall).
    f_equal. unfold covered_regions_of.
    rewrite filter_app, fmap_app, list_to_set_app_L. set_solver.
Qed.

Lemma elem_of_covered_regions_of (t : Region) (regions : list (list Z)) :
  t ∈ covered_regions_of regions ↔
  ∃ r hit, r ∈ regions ∧ r !! 4%nat = Some hit ∧ hit ≠ 0%Z
           ∧ last r = Some 0%Z ∧ t = take 4 (FInt <$> r).
Proof.
  unfold covered_regions_of, region_identity, hit_and_code.
  rewrite elem_of_list_to_set, list_elem_of_fmap. split.
  - intros (r & -> & [Hc Hr]%list_elem_of_filter).
    destruct (r !! 4%nat) as [hit|] eqn:Hhit; [|done].
    destruct (last r) as [kind|] eqn:Hkind; [|done].
    apply andb_true_iff in Hc as [Hh Hk].
    apply negb_true_iff, Z.eqb_neq in Hh. apply Z.eqb_eq in Hk. subst kind.
    exists r, hit. by rewrite fmap_take.
  - intros (r & hit & Hr & Hhit & Hne & Hkind & ->).
    exists r. split; [by rewrite fmap_take|].
    apply list_elem_of_filter. split; [|done].
    rewrite Hhit, Hkind. apply andb_true_iff. split; [|done].
    by apply negb_true_iff, Z.eqb_neq.
Qed.

(** C1: on a summary whose region records are tuples of integers with at
    least five fields, [get_current_covered_regions] returns, and logs
    nothing, the set of the first four fields of the records whose fifth
    field is not zero and whose last field is zero: a tuple is in the
    set exactly when it is the projection of such a record, records
    failing either test contribute nothing, and a projection met several
    times is in the set once. *)
Theorem get_current_covered_regions_spec (fs : FS) (self : TrialCoverage)
    (coverage_info : json) (functions : list (list (list Z))) :
  get_coverage_infomation json_loads fs (tc_cov_summary_file self)
  = Ok coverage_info →
  summary_shape coverage_info functions →
  Forall (Forall (λ r, (5 ≤ length r)%nat)) functions →
  ∃ covered_regions : RegionSet,
    get_current_covered_regions json_loads fs self = (covered_regions, [])
    ∧ (∀ t, t ∈ covered_regions ↔
            ∃ r hit, r ∈ concat functions
                     ∧ r !! 4%nat = Some hit ∧ hit ≠ 0%Z
                     ∧ last r = Some 0%Z
                     ∧ t = take 4 (FInt <$> r))
    ∧ NoDup (elements covered_regions).
Proof.
  intros Hinfo (first & others & fds & Hdata & Hfuns & Hshape) Hlen.
  exists (covered_regions_of (concat functions)). split; [|split].
  - unfold get_current_covered_regions, try_extract.
    rewrite st_bind_unfold. unfold st_lift at 1. rewrite Hinfo.
    rewrite st_bind_unfold. unfold st_lift at 1.
    unfold functions_of. rewrite Hdata.
    change (getitem_int (JArr (first :: others)) 0) with (Ok first).
    cbv beta iota. rewrite Hfuns.
    cbv beta iota. simpl iterate. cbv beta iota. rewrite (scan_functions_shape _ _ _ Hshape Hlen).
    f_equal. set_solver.
  - intros t. apply elem_of_covered_regions_of.
  - apply NoDup_elements.
Qed.

End ExtractorFacts.

Lemma get_current_covered_regions_spec_witness :
  ∃ covered_regions : RegionSet,
    get_current_covered_regions loads
      (example_files ("warning: profile data may be out of date" +:+ nl
                      +:+ example_summary))
      example_trial
    = (covered_regions, [])
    ∧ (∀ t, t ∈ covered_regions ↔
            ∃ r hit, r ∈ concat example_functions
                     ∧ r !! 4%nat = Some hit ∧ hit ≠ 0%Z
                     ∧ last r = Some 0%Z
                     ∧ t = take 4 (FInt <$> r))
    ∧ NoDup (elements covered_regions).
Proof.
  eapply (get_current_covered_regions_spec loads _ example_trial _
            example_functions).
  - vm_compute. reflexivity.
  - eexists _, _, _. split; [reflexivity|]. split; [reflexivity|].
    repeat (constructor; [reflexivity|]). constructor.
  - repeat constructor; simpl; lia.
Defined.

Example get_current_covered_regions_example :
  elements (get_current_covered_regions loads
              (example_files example_summary) example_trial).1
  = [[FInt 10; FInt 1; FInt 10; FInt 5]].
Proof. vm_compute. reflexivity. Qed.

Section ExtractionFailure.

Variable json_loads : string → result json.

Lemma scan_region_mono (region : json) (covered : RegionSet) :
  covered ⊆ (scan_region region covered).1.
Proof.
  unfold scan_region. rewrite st_bind_unfold. unfold st_lift at 1.
  destruct (getitem_int region hit_index) as [hit|e]; [|done].
  destruct (ne_zero hit); [|done].
  rewrite st_bind_unfold. unfold st_lift at 1.
  destruct (getitem_last region) as [kind|e]; [|done].
  destruct (eq_zero kind); [|done].
  rewrite st_bind_unfold. unfold st_lift at 1.
  destruct (slice_to region hit_index) as [items|e]; [|done].
  rewrite st_bind_unfold. unfold st_lift at 1.
  destruct (hashable_tuple items) as [t|e]; [|done].
  simpl. set_solver.
Qed.

Lemma for_each_mono {A} (body : A → St RegionSet unit) (l : list A) :
  (∀ x covered, covered ⊆ (body x covered).1) →
  ∀ covered, covered ⊆ (for_each l body covered).1.
Proof.
  intros Hbody. induction l as [|x l IH]; intros covered; [done|].
  simpl. unfold st_bind. specialize (Hbody x covered).
  destruct (body x covered) as [covered' [[]|e]]; simpl in *; [|done].
  etrans; [exact Hbody | apply IH].
Qed.

Lemma scan_function_mono (function_data : json) (covered : RegionSet) :
  covered ⊆ (scan_function function_data covered).1.
Proof.
  unfold scan_function. rewrite st_bind_unfold. unfold st_lift at 1.
  destruct (getitem_str function_data "regions") as [regions|e]; [|done].
  rewrite st_bind_unfold. unfold st_lift at 1.
  destruct (iterate regions) as [items|e]; [|done].
  apply for_each_mono, scan_region_mono.
Qed.

Lemma for_each_stops {S A} (body : A → St S unit) (done : list A) (bad : A)
    (rest : list A) (s s1 : S) (e : exn) :
  for_each done body s = (s1, Ok tt) →
  (body bad s1).2 = Raise e →
  for_each (done ++ bad :: rest) body s = ((body bad s1).1, Raise e).
Proof.
  intros Hdone Hbad. rewrite for_each_app, Hdone. simpl. unfold st_bind.
  destruct (body bad s1) as [s2 r]. simpl in Hbad. by subst r.
Qed.

(** C4, as the code has it: [get_current_covered_regions] never raises;
    it logs the error record exactly when the extraction raised.  When the
    file is missing or empty, when its last line does not decode, or when
    the document has no [data[0]['functions']] to iterate over, it returns
    the empty set.  When the extraction raises at the function entry
    [bad], after the entries [done] were scanned, it returns the set
    collected up to the point of the exception, which holds the regions
    collected from [done]. *)
Theorem get_current_covered_regions_on_failure (fs : FS) (self : TrialCoverage) :
  let file := tc_cov_summary_file self in
  let outcome := get_current_covered_regions json_loads fs self in
  ((∃ e, (try_extract json_loads fs self ∅).2 = Raise e) ↔
   outcome.2 = [defective_msg])
  ∧ ((try_extract json_loads fs self ∅).2 = Ok tt ↔ outcome.2 = [])
  ∧ (fs !! file = None ∨ fs !! file = Some EmptyString →
     outcome = (∅, [defective_msg]))
  ∧ (∀ e, get_coverage_infomation json_loads fs file = Raise e →
          outcome = (∅, [defective_msg]))
  ∧ (∀ coverage_info e,
       get_coverage_infomation json_loads fs file = Ok coverage_info →
       functions_of coverage_info = Raise e →
       outcome = (∅, [defective_msg]))
  ∧ (∀ coverage_info done bad rest collected e,
       get_coverage_infomation json_loads fs file = Ok coverage_info →
       functions_of coverage_info = Ok (done ++ bad :: rest) →
       for_each done scan_function ∅ = (collected, Ok tt) →
       (scan_function bad collected).2 = Raise e →
       outcome = ((scan_function bad collected).1, [defective_msg])
       ∧ collected ⊆ outcome.1).
Proof.
  intros file outcome. subst file outcome.
  unfold get_current_covered_regions.
  assert (Hload : ∀ e,
    get_coverage_infomation json_loads fs (tc_cov_summary_file self) = Raise e →
    try_extract json_loads fs self ∅ = (∅, Raise e)).
  { intros e He. unfold try_extract. rewrite st_bind_unfold.
    unfold st_lift at 1. by rewrite He. }
  split; [|split; [|split; [|split; [|split]]]].
  - destruct (try_extract json_loads fs self ∅) as [covered [[]|e]]; simpl.
    + split; [by intros [e He]|done].
    + split; [done|by exists e].
  - destruct (try_extract json_loads fs self ∅) as [covered [[]|e]]; simpl; done.
  - intros H.
    assert (∃ e, get_coverage_infomation json_loads fs
                   (tc_cov_summary_file self) = Raise e) as [e He].
    { unfold get_coverage_infomation. destruct H as [-> | ->]; by eexists. }
    by rewrite (Hload e He).
  - intros e He. by rewrite (Hload e He).
  - intros info e Hinfo He. unfold try_extract.
    rewrite st_bind_unfold. unfold st_lift at 1. rewrite Hinfo.
    rewrite st_bind_unfold. unfold st_lift at 1. by rewrite He.
  - intros info done bad rest collected e Hinfo Hfuns Hdone Hbad.
    assert (Hrun : try_extract json_loads fs self ∅
                   = ((scan_function bad collected).1, Raise e)).
    { unfold try_extract.
      rewrite st_bind_unfold. unfold st_lift at 1. rewrite Hinfo.
      rewrite st_bind_unfold. unfold st_lift at 1. rewrite Hfuns.
      cbv beta iota. apply (for_each_stops _ _ _ _ _ _ _ Hdone Hbad). }
    rewrite Hrun. split; [reflexivity|]. simpl. apply scan_function_mono.
Qed.

End ExtractionFailure.

Lemma get_current_covered_regions_on_failure_witness :
  get_current_covered_regions loads (example_files EmptyString) example_trial
  = (∅, [defective_msg]).
Proof.
  apply (get_current_covered_regions_on_failure loads
           (example_files EmptyString) example_trial).
  right. reflexivity.
Defined.

(** C4, as the spec has it, fails: the extraction raises [IndexError] on
    the second region record, and the set returned is not empty. *)
Lemma get_current_covered_regions_partial :
  (try_extract loads (example_files defective_summary) example_trial ∅).2
  = Raise IndexError
  ∧ elements (get_current_covered_regions loads
                (example_files defective_summary) example_trial).1
    = [[FInt 10; FInt 1; FInt 10; FInt 5]]
  ∧ (get_current_covered_regions loads
       (example_files defective_summary) example_trial).1 ≠ ∅.
Proof.
  split; [vm_compute; reflexivity|]. split; [vm_compute; reflexivity|].
  intros E. apply (f_equal elements) in E. vm_compute in E. discriminate.
Qed.

(** ** The reducer *)

Lemma keeps_channel_ret {A} (a : A) : keeps_channel (mret a).
Proof. by intros w. Qed.

Lemma keeps_channel_lift {A} (r : result A) : keeps_channel (st_lift r).
Proof. by intros w. Qed.

Lemma keeps_channel_get : keeps_channel st_get.
Proof. by intros w. Qed.

Lemma keeps_channel_modify (f : world → world) :
  (∀ w, channel (f w) = channel w) → keeps_channel (st_modify f).
Proof. intros Hf w. apply Hf. Qed.

Lemma keeps_channel_bind {A B} (m : St world A) (k : A → St world B) :
  keeps_channel m → (∀ a, keeps_channel (k a)) → keeps_channel (m ≫= k).
Proof.
  intros Hm Hk w. rewrite st_bind_unfold. specialize (Hm w).
  destruct (m w) as [w' [a|e]]; simpl in *; [|done].
  by rewrite Hk.
Qed.

Lemma keeps_channel_for_each {A} (l : list A) (body : A → St world unit) :
  (∀ x, keeps_channel (body x)) → keeps_channel (for_each l body).
Proof.
  intros Hbody. induction l as [|x l IH]; [by intros w|].
  apply (keeps_channel_bind (body x) (λ _, for_each l body)); auto.
Qed.

Lemma keeps_channel_set_files (f : FS → FS) :
  keeps_channel (st_modify (set_files f)).
Proof. by intros w. Qed.

Lemma keeps_channel_log_error (r : log_record) :
  keeps_channel (st_modify (log_error r)).
Proof. by intros w. Qed.

Create HintDb channel.
#[local] Hint Resolve keeps_channel_ret keeps_channel_lift keeps_channel_get
  keeps_channel_set_files keeps_channel_log_error : channel.

Section ReducerFacts.

Variable json_loads : string → result json.
Variable trials : list Trial.
Variable get_trial_dir : string → string → Z → string.
Variable get_work_dir : string.
Variable get_coverage_binaries_dir : string.
Variable get_fuzz_target : string → string.
Variable get_fuzz_target_binary : string → string → string.
Variable execute : list string → FS → result (Z * string).

Let reducer := get_covered_region json_loads trials get_trial_dir get_work_dir
                 get_coverage_binaries_dir get_fuzz_target
                 get_fuzz_target_binary execute.

Lemma generate_summary_keeps_channel (self : TrialCoverage) (cycle : Z)
    (summary_only : bool) :
  keeps_channel (generate_summary get_coverage_binaries_dir get_fuzz_target
                   get_fuzz_target_binary execute self cycle summary_only).
Proof.
  unfold generate_summary.
  repeat (first [ apply keeps_channel_bind; [|intros ?]
                | solve [auto with channel]
                | match goal with |- context [if ?b then _ else _] =>
                    destruct b end ]).
Qed.

Lemma current_covered_regions_keeps_channel (self : TrialCoverage) :
  keeps_channel (current_covered_regions json_loads self).
Proof.
  unfold current_covered_regions.
  apply keeps_channel_bind; [apply keeps_channel_get|]. intros w.
  apply keeps_channel_bind; [|intros ?; apply keeps_channel_ret].
  apply keeps_channel_for_each. auto with channel.
Qed.

Lemma measure_trials_outcome (fuzzer benchmark key : string)
    (trial_ids : list Z) (covered : RegionSet) (w : world) :
  let out := measure_trials json_loads get_trial_dir get_work_dir
               get_coverage_binaries_dir get_fuzz_target
               get_fuzz_target_binary execute
               fuzzer benchmark key trial_ids {[key := covered]} w in
  channel out.1 = channel w
  ∧ match out.2 with
    | Ok d => ∃ covered', d = {[key := covered']} ∧ covered ⊆ covered'
                          ∧ (trial_ids = [] → covered' = covered)
    | Raise _ => True
    end.
Proof.
  revert covered w. induction trial_ids as [|trial_id rest IH]; intros covered w.
  - simpl. split; [done|]. by exists covered.
  - cbn [measure_trials]. cbv zeta.
    rewrite st_bind_unfold.
    pose proof (generate_summary_keeps_channel
      (new_TrialCoverage get_trial_dir get_work_dir fuzzer benchmark trial_id)
      0 false w) as Hg.
    destruct (generate_summary _ _ _ _ _ _ _ w) as [w1 [[]|e]];
      simpl in Hg; [|done].
    rewrite st_bind_unfold.
    pose proof (current_covered_regions_keeps_channel
      (new_TrialCoverage get_trial_dir get_work_dir fuzzer benchmark trial_id)
      w1) as Hc.
    destruct (current_covered_regions _ _ w1) as [w2 [new|e]];
      simpl in Hc; [|split; [simpl; congruence|done]].
    rewrite lookup_total_singleton_eq, insert_singleton_eq.
    destruct (IH (covered ∪ new) w2) as [Hch Hd].
    split; [congruence|].
    destruct (measure_trials _ _ _ _ _ _ _ _ _ _ _ _ w2).2 as [d|e]; [|done].
    destruct Hd as (covered' & -> & Hsub & _).
    exists covered'. split; [done|]. split; [set_solver|done].
Qed.

(** What one run of the reducer does to the results queue. *)
Lemma get_covered_region_outcome (experiment fuzzer benchmark : string)
    (w : world) :
  let out := reducer experiment fuzzer benchmark w in
  match out.2 with
  | Ok _ =>
      ∃ covered : RegionSet,
        channel out.1
        = channel w ++ [{[get_fuzzer_benchmark_key fuzzer benchmark := covered]}]
        ∧ (get_trial_ids trials experiment fuzzer benchmark = [] → covered = ∅)
  | Raise _ => channel out.1 = channel w
  end.
Proof.
  unfold reducer, get_covered_region. cbv zeta. rewrite st_bind_unfold.
  pose proof (measure_trials_outcome fuzzer benchmark
    (get_fuzzer_benchmark_key fuzzer benchmark)
    (get_trial_ids trials experiment fuzzer benchmark) ∅ w) as [Hch Hd].
  destruct (measure_trials _ _ _ _ _ _ _ _ _ _ _ _ w) as [w1 [d|e]];
    simpl in *; [|done].
  destruct Hd as (covered & -> & _ & Hnil).
  exists covered. by rewrite Hch.
Qed.

(** C9: a call of [get_covered_region] that runs to completion has put
    exactly one item on the results queue; the item is a dictionary with
    one entry, whose key is the key of the fuzzer and the benchmark; its
    value is the empty set when the pair has no trial.  A call that
    raises has put nothing. *)
Theorem get_covered_region_puts_one (experiment fuzzer benchmark : string)
    (w w' : world) :
  (reducer experiment fuzzer benchmark w = (w', Ok tt) →
   ∃ covered : RegionSet,
     channel w'
     = channel w ++ [{[get_fuzzer_benchmark_key fuzzer benchmark := covered]}]
     ∧ dom ({[get_fuzzer_benchmark_key fuzzer benchmark := covered]}
            : gmap string RegionSet)
       = {[get_fuzzer_benchmark_key fuzzer benchmark]}
     ∧ (get_trial_ids trials experiment fuzzer benchmark = [] → covered = ∅))
  ∧ (∀ e, reducer experiment fuzzer benchmark w = (w', Raise e) →
          channel w' = channel w).
Proof.
  pose proof (get_covered_region_outcome experiment fuzzer benchmark w) as H.
  split.
  - intros E. rewrite E in H. simpl in H.
    destruct H as (covered & Hch & Hnil). exists covered.
    split; [done|]. split; [apply dom_singleton_L|done].
  - intros e E. by rewrite E in H.
Qed.

End ReducerFacts.

(** ** The aggregation engine *)

Lemma get_covered_region_args_length (config : experiment_config) :
  length (get_covered_region_args config)
  = (length (split_comma (cfg_fuzzers config))
     * length (split_comma (cfg_benchmarks config)))%nat.
Proof.
  unfold get_covered_region_args.
  induction (split_comma (cfg_fuzzers config)) as [|f fs IH]; [done|].
  rewrite bind_cons, length_app, IH. simpl. f_equal. clear IH.
  induction (split_comma (cfg_benchmarks config)) as [|b bs IHb]; [done|].
  rewrite bind_cons. simpl. by rewrite IHb.
Qed.

Lemma elem_of_get_covered_region_args (config : experiment_config)
    (experiment fuzzer benchmark : string) :
  (experiment, fuzzer, benchmark) ∈ get_covered_region_args config ↔
  experiment = cfg_experiment config
  ∧ fuzzer ∈ split_comma (cfg_fuzzers config)
  ∧ benchmark ∈ split_comma (cfg_benchmarks config).
Proof.
  unfold get_covered_region_args. rewrite list_elem_of_bind. split.
  - intros (f & Hin & Hf). apply list_elem_of_bind in Hin as (b & Hin & Hb).
    apply list_elem_of_singleton in Hin. by injection Hin as -> -> ->.
  - intros (-> & Hf & Hb). exists fuzzer. split; [|done].
    apply list_elem_of_bind. exists benchmark. split; [|done].
    by apply list_elem_of_singleton.
Qed.


Lemma ready_reported (e : engine) (i : nat) a st :
  ready e = true → tasks e !! i = Some (a, st) → is_reported st = true.
Proof.
  unfold ready. rewrite forallb_forall. intros H Hi.
  apply (H (a, st)). apply list_elem_of_In. by eapply list_elem_of_lookup_2.
Qed.

Section EngineFacts.

Variable trials : list Trial.
Variable reducer : string → string → string → St world unit.

Hypothesis reducer_outcome : ∀ experiment fuzzer benchmark (w : world),
  match (reducer experiment fuzzer benchmark w).2 with
  | Ok _ =>
      ∃ covered : RegionSet,
        channel (reducer experiment fuzzer benchmark w).1
        = channel w ++ [{[get_fuzzer_benchmark_key fuzzer benchmark := covered]}]
        ∧ (get_trial_ids trials experiment fuzzer benchmark = [] → covered = ∅)
  | Raise _ => channel (reducer experiment fuzzer benchmark w).1 = channel w
  end.

Lemma engine_inv_start (config : experiment_config) (w : world) :
  channel w = [] →
  engine_inv trials (get_covered_region_args config) (start config w).
Proof.
  intros Hw. split; simpl.
  - rewrite <- list_fmap_compose. apply list_fmap_id.
  - rewrite Hw. constructor.
  - intros k covered. by rewrite lookup_empty.
  - intros i a st Hi [-> | ->];
      apply list_lookup_fmap_Some in Hi as (? & ? & ?); congruence.
  - discriminate.
Qed.

Lemma tasks_insert_fst (l : list (string * string * string * task_status))
    (i : nat) a st st' :
  l !! i = Some (a, st) → (<[i := (a, st')]> l).*1 = l.*1.
Proof.
  intros Hi. rewrite list_fmap_insert. apply list_insert_id.
  by rewrite list_lookup_fmap, Hi.
Qed.

Lemma engine_inv_step args (a : action) (e e' : engine) :
  engine_inv trials args e → step reducer a e = Some e' →
  engine_inv trials args e'.
Proof.
  intros [Htasks Hchan Hmerged Hkept Hexit] Hstep.
  destruct a as [i | i |]; simpl in Hstep.
  - (* a worker runs its task *)
    destruct (tasks e !! i) as [[[[experiment fuzzer] benchmark] st]|] eqn:Hi;
      [|done].
    destruct st; try done.
    pose proof (reducer_outcome experiment fuzzer benchmark (env e)) as Hred.
    destruct (reducer experiment fuzzer benchmark (env e)) as [w r] eqn:Hr.
    simpl in Hred. injection Hstep as <-.
    assert (Harg : (experiment, fuzzer, benchmark) ∈ args).
    { rewrite <- Htasks. apply list_elem_of_fmap.
      exists (experiment, fuzzer, benchmark, Queued). split; [done|].
      by eapply list_elem_of_lookup_2. }
    assert (Hsub : ∀ item, item ∈ channel (env e) → item ∈ channel w).
    { intros item Hitem. destruct r as [[]|err].
      - destruct Hred as (covered & -> & _). set_solver.
      - by rewrite Hred. }
    split; simpl.
    + rewrite <- Htasks. by eapply tasks_insert_fst.
    + destruct r as [[]|err].
      * destruct Hred as (covered & -> & Hnil).
        apply Forall_app. split; [done|]. constructor; [|done].
        by exists (experiment, fuzzer, benchmark), covered.
      * by rewrite Hred.
    + done.
    + intros j a st Hj Hst. destruct (decide (i = j)) as [->|Hne].
      * rewrite list_lookup_insert_eq in Hj by (by eapply lookup_lt_Some).
        injection Hj as <- <-. right.
        destruct r as [[]|err]; [|by destruct Hst].
        destruct Hred as (covered & -> & _).
        exists {[get_fuzzer_benchmark_key fuzzer benchmark := covered]}.
        split; [set_solver|]. rewrite dom_singleton_L. set_solver.
      * rewrite list_lookup_insert_ne in Hj by done.
        destruct (Hkept j a st Hj Hst) as [?|(item & Hitem & ?)]; [by left|].
        right. exists item. auto.
    + intros Hpc. apply Hexit in Hpc.
      by pose proof (ready_reported e i _ _ Hpc Hi).
  - (* the pool records the end of a task *)
    destruct (tasks e !! i) as [[a st]|] eqn:Hi; [|done].
    destruct st as [|b|]; try done. injection Hstep as <-.
    split; simpl.
    + rewrite <- Htasks. by eapply tasks_insert_fst.
    + done.
    + done.
    + intros j a' st Hj Hst. destruct (decide (i = j)) as [->|Hne].
      * rewrite list_lookup_insert_eq in Hj by (by eapply lookup_lt_Some).
        injection Hj as <- <-.
        apply (Hkept j a (Ran b) Hi). left.
        destruct Hst as [?|?]; congruence.
      * rewrite list_lookup_insert_ne in Hj by done. by apply (Hkept j a' st).
    + intros Hpc. apply Hexit in Hpc.
      by pose proof (ready_reported e i _ _ Hpc Hi).
  - (* the engine *)
    destruct (pc e) eqn:Hpc; [| |done].
    + destruct (channel (env e)) as [|item rest] eqn:Hch;
        injection Hstep as <-.
      { split; simpl; [done | by rewrite Hch | done | | done].
        intros i a st Hi Hst. rewrite Hch. by apply (Hkept i a st). }
      split; simpl; [done | | | | done].
      * by apply Forall_cons in Hchan as [_ ?].
      * intros k covered. unfold dict_update.
        intros [Hk|[Hk Hk']]%lookup_union_Some_raw; [|by apply Hmerged].
        apply Forall_cons in Hchan as [(a & covered' & Ha & -> & Hnil) _].
        apply lookup_singleton_Some in Hk as [<- <-].
        by exists a, covered'.
      * intros i a st Hi Hst. unfold dict_update. rewrite dom_union_L.
        destruct (Hkept i a st Hi Hst) as [?|(it & Hit & Hdom)];
          [left; set_solver|].
        apply elem_of_cons in Hit as [->|Hit]; [left; set_solver|].
        right. by exists it.
    + injection Hstep as <-. split; simpl; [done | done | done | done |].
      unfold ready at 2. simpl. fold (ready e). by destruct (ready e).
Qed.

Lemma engine_inv_run args (schedule : list action) (e e' : engine) :
  engine_inv trials args e → run reducer schedule e = Some e' →
  engine_inv trials args e'.
Proof.
  revert e. induction schedule as [|a schedule IH]; intros e Hinv; simpl.
  - by intros [= <-].
  - destruct (step reducer a e) as [e1|] eqn:Hstep; [|done].
    apply IH. by eapply engine_inv_step.
Qed.

(** The engine leaves the loop only when every task has been reported. *)
Lemma exit_only_when_ready (config : experiment_config) (w : world)
    (schedule : list action) (e : engine) :
  channel w = [] →
  run reducer schedule (start config w) = Some e →
  pc e = Exited → ready e = true.
Proof.
  intros Hw Hrun.
  by destruct (engine_inv_run _ _ _ _ (engine_inv_start config w Hw) Hrun).
Qed.

End EngineFacts.

Section Completion.

Variable trials : list Trial.


End Completion.

(** X28: once every task is reported, the engine alone drains the queue
    in order, times out and leaves the loop: from [q.get] it takes one step
    for each item of the queue and two more, the queue is then empty and
    the dictionary is the one built by [update] on the items in their
    order. *)
Lemma engine_drains (reducer : string → string → string → St world unit)
    (e : engine) :
  pc e = AtGet → ready e = true →
  ∃ e', run reducer (replicate (length (channel (env e)) + 2) Engine) e = Some e'
        ∧ pc e' = Exited
        ∧ channel (env e') = []
        ∧ tasks e' = tasks e
        ∧ all_covered_regions e'
          = foldl dict_update (all_covered_regions e) (channel (env e)).
Proof.
  destruct e as [[fs log ch] ts acc loc]. simpl. intros -> Hready.
  unfold ready in Hready. simpl in Hready.
  revert acc. induction ch as [|item rest IH]; intros acc.
  - eexists. simpl. unfold ready. simpl. rewrite Hready. done.
  - destruct (IH (dict_update acc item)) as (e' & Hrun & ?).
    exists e'. split; [|done]. exact Hrun.
Qed.

(** C2, as the code has it: when the engine receives a one-entry
    dictionary, [update] sets the entry of its key to the received set,
    whatever set the key had, and leaves the entry of every other key as
    it was; a region recorded under a key stays under that key through
    the merge of every item that has another key. *)
Theorem receive_replaces_entry (reducer : string → string → string → St world unit)
    (e : engine) (key : string) (covered : RegionSet)
    (rest : list (gmap string RegionSet)) :
  pc e = AtGet →
  channel (env e) = {[key := covered]} :: rest →
  ∃ e', step reducer Engine e = Some e'
        ∧ channel (env e') = rest
        ∧ all_covered_regions e' !! key = Some covered
        ∧ (∀ k, k ≠ key →
                all_covered_regions e' !! k = all_covered_regions e !! k)
        ∧ (∀ k (region : Region) (recorded : RegionSet),
             k ≠ key → all_covered_regions e !! k = Some recorded →
             region ∈ recorded →
             ∃ recorded' : RegionSet,
               all_covered_regions e' !! k = Some recorded'
                          ∧ region ∈ recorded').
Proof.
  intros Hpc Hch. simpl. rewrite Hpc, Hch. eexists. split; [reflexivity|].
  simpl. unfold dict_update.
  assert (Hother : ∀ k, k ≠ key →
    (({[key := covered]} : gmap string RegionSet) ∪ all_covered_regions e) !! k
    = all_covered_regions e !! k).
  { intros k Hk. apply lookup_union_r. by apply lookup_singleton_ne. }
  split; [done|]. split; [|split].
  - apply lookup_union_Some_l, lookup_singleton_eq.
  - exact Hother.
  - intros k region recorded Hk Hrec Hin. exists recorded.
    by rewrite (Hother k Hk).
Qed.

Lemma receive_replaces_entry_witness :
  ∃ e', step example_reducer Engine fresh_key_engine = Some e'
        ∧ channel (env e') = []
        ∧ all_covered_regions e' !! "libfuzzer b1" = Some {[ region_b ]}
        ∧ (∀ k, k ≠ "libfuzzer b1" →
                all_covered_regions e' !! k
                = all_covered_regions fresh_key_engine !! k)
        ∧ (∀ k (region : Region) (recorded : RegionSet),
             k ≠ "libfuzzer b1" →
             all_covered_regions fresh_key_engine !! k = Some recorded →
             region ∈ recorded →
             ∃ recorded' : RegionSet,
               all_covered_regions e' !! k = Some recorded'
               ∧ region ∈ recorded').
Proof.
  apply (receive_replaces_entry example_reducer fresh_key_engine
           "libfuzzer b1" {[ region_b ]} []);
    reflexivity.
Defined.

(** C2, as the spec has it, fails: the key is present with the set
    {region_a}, the received set is {region_b}, and after the merge the key
    holds {region_b}: region_a has been removed, the two sets were not
    united. *)
Lemma receive_overwrites :
  ∃ e', step example_reducer Engine overwrite_engine = Some e'
        ∧ all_covered_regions overwrite_engine !! "afl b1" = Some {[ region_a ]}
        ∧ all_covered_regions e' !! "afl b1" = Some {[ region_b ]}
        ∧ (region_a ∉ ({[ region_b ]} : RegionSet))
        ∧ (all_covered_regions e' !! "afl b1"
           ≠ Some ({[ region_a ]} ∪ {[ region_b ]})).
Proof.
  assert (Hne : region_a ∉ ({[ region_b ]} : RegionSet)).
  { rewrite elem_of_singleton. discriminate. }
  assert (Hnew : dict_update (all_covered_regions overwrite_engine)
                   {[ "afl b1" := {[ region_b ]} ]} !! "afl b1"
                 = Some {[ region_b ]}).
  { apply lookup_union_Some_l, lookup_singleton_eq. }
  eexists. split; [reflexivity|]. cbn [all_covered_regions overwrite_engine].
  split; [apply lookup_singleton_eq|].
  split; [exact Hnew|].
  split; [exact Hne|].
  cbn [all_covered_regions overwrite_engine] in Hnew. rewrite Hnew.
  intros E. apply (inj Some) in E. apply Hne. rewrite E. set_solver.
Qed.

(** C3 fails on the code: with one pair dispatched, the engine's
    [q.get] times out on the empty queue, the worker then puts its item and
    is reported, and the engine finds [result.ready()] true and leaves the
    loop.  The item is still in the queue and the dictionary returned is
    empty. *)
Theorem receive_loop_race :
  ∃ e item,
    run example_reducer race_schedule (start race_config empty_world) = Some e
    ∧ pc e = Exited
    ∧ ready e = true
    ∧ channel (env e) = [item]
    ∧ elements <$> item = {[ "afl b1" := [region_a; region_b] ]}
    ∧ returned_dict e = ∅
    ∧ get_all_covered_regions example_reducer race_config empty_world
        race_schedule = Some ∅.
Proof.
  eexists _, _. split; [vm_compute; reflexivity|].
  repeat split; vm_compute; reflexivity.
Qed.

Lemma get_covered_region_puts_one_witness :
  ∃ covered : RegionSet,
    channel (example_reducer "exp" "libfuzzer" "b1" empty_world).1
    = channel empty_world ++ [{[get_fuzzer_benchmark_key "libfuzzer" "b1" := covered]}]
    ∧ dom ({[get_fuzzer_benchmark_key "libfuzzer" "b1" := covered]}
           : gmap string RegionSet)
      = {[get_fuzzer_benchmark_key "libfuzzer" "b1"]}
    ∧ (get_trial_ids example_trials "exp" "libfuzzer" "b1" = [] → covered = ∅).
Proof.
  apply (proj1 (get_covered_region_puts_one loads example_trials
                  example_get_trial_dir "/work" "/work/coverage-binaries"
                  (λ _, "fuzz-target") example_get_fuzz_target_binary
                  example_execute "exp" "libfuzzer" "b1" empty_world
                  (example_reducer "exp" "libfuzzer" "b1" empty_world).1)).
  vm_compute. reflexivity.
Defined.

Section AggregationRun.

Variable json_loads : string → result json.
Variable trials : list Trial.
Variable get_trial_dir : string → string → Z → string.
Variable get_work_dir : string.
Variable get_coverage_binaries_dir : string.
Variable get_fuzz_target : string → string.
Variable get_fuzz_target_binary : string → string → string.
Variable execute : list string → FS → result (Z * string).

Let reducer := get_covered_region json_loads trials get_trial_dir get_work_dir
                 get_coverage_binaries_dir get_fuzz_target
                 get_fuzz_target_binary execute.


End AggregationRun.


(** The run of the example returns the dictionary of the scenario. *)
Example get_all_covered_regions_example :
  get_all_covered_regions example_reducer example_config empty_world
    example_schedule
  = Some {[ "afl b1" := [region_a; region_b]; "libfuzzer b1" := [] ]}.
Proof. vm_compute. reflexivity. Qed.


(** ** Staging of the coverage archives *)

Section StagingFacts.

Variable environ : gmap string string.
Variable Store : Type.
Variable ls_retcode : string → Store → Z.
Variable create_directory : string → St Store unit.
Variable cp : string → string → St Store unit.
Variable tar_extractall : string → string → St Store unit.
Variable os_remove : string → St Store unit.

Let archive_of := get_benchmark_archive environ.
Let stage := stage_archive Store create_directory cp tar_extractall os_remove.
Let set_up := set_up_coverage_file environ Store ls_retcode create_directory
                cp tar_extractall os_remove.

Lemma set_up_coverage_file_skips (before rest : list string)
    (report_dir benchmark : string) (s : Store) :
  Forall (λ x, ls_retcode (archive_of x benchmark) s ≠ 0%Z) before →
  set_up (before ++ rest) report_dir benchmark s
  = set_up rest report_dir benchmark s.
Proof.
  induction 1 as [|x before Hx _ IH]; [done|].
  unfold set_up in *. simpl. rewrite st_bind_unfold. unfold st_get at 1.
  apply Z.eqb_neq in Hx. unfold archive_of in Hx. by rewrite Hx.
Qed.

(** C8: [set_up_coverage_file] asks the store for the archive of each
    experiment in the order of [experiment_names].  At the first
    experiment whose archive is listed it stages that archive: it creates
    the report directory of the benchmark, copies the archive into it,
    extracts it there and removes the local archive, in that order; the
    experiments after it play no part.  When no experiment has an
    archive, it changes nothing and returns without an exception. *)
Theorem set_up_coverage_file_first_archive (experiment_names : list string)
    (report_dir benchmark : string) (s : Store) :
  (∀ before experiment after,
     experiment_names = before ++ experiment :: after →
     Forall (λ x, ls_retcode (archive_of x benchmark) s ≠ 0%Z) before →
     ls_retcode (archive_of experiment benchmark) s = 0%Z →
     set_up experiment_names report_dir benchmark s
     = stage (archive_of experiment benchmark) report_dir benchmark s
     ∧ stage (archive_of experiment benchmark) report_dir benchmark
       = (create_directory (path_join report_dir benchmark) ;;
          cp (archive_of experiment benchmark) (path_join report_dir benchmark) ;;
          tar_extractall
            (path_join (path_join report_dir benchmark)
                       (get_coverage_archive_name benchmark))
            (path_join report_dir benchmark) ;;
          os_remove (path_join (path_join report_dir benchmark)
                               (get_coverage_archive_name benchmark))))
  ∧ (Forall (λ x, ls_retcode (archive_of x benchmark) s ≠ 0%Z)
            experiment_names →
     set_up experiment_names report_dir benchmark s = (s, Ok tt)).
Proof.
  split.
  - intros before experiment after -> Hbefore Hfound. split; [|reflexivity].
    rewrite (set_up_coverage_file_skips _ _ _ _ _ Hbefore).
    unfold set_up. simpl. rewrite st_bind_unfold. unfold st_get at 1.
    unfold archive_of in Hfound. by rewrite Hfound.
  - intros Hnone.
    rewrite <- (app_nil_r experiment_names).
    by rewrite (set_up_coverage_file_skips _ _ _ _ _ Hnone).
Qed.

End StagingFacts.

Lemma set_up_coverage_file_first_archive_witness :
  set_up_coverage_file ∅ (list store_event) example_ls_retcode
    (λ d, record_event (EvCreateDirectory d))
    (λ src dst, record_event (EvCp src dst))
    (λ archive d, record_event (EvExtractAll archive d))
    (λ path, record_event (EvRemove path))
    ["exp1"; "exp2"; "exp3"] "/reports" "b1" []
  = stage_archive (list store_event)
      (λ d, record_event (EvCreateDirectory d))
      (λ src dst, record_event (EvCp src dst))
      (λ archive d, record_event (EvExtractAll archive d))
      (λ path, record_event (EvRemove path))
      (get_benchmark_archive ∅ "exp2" "b1") "/reports" "b1" [].
Proof.
  apply (proj1 (set_up_coverage_file_first_archive ∅ (list store_event)
                  example_ls_retcode
                  (λ d, record_event (EvCreateDirectory d))
                  (λ src dst, record_event (EvCp src dst))
                  (λ archive d, record_event (EvExtractAll archive d))
                  (λ path, record_event (EvRemove path))
                  ["exp1"; "exp2"; "exp3"] "/reports" "b1" [])
           ["exp1"] "exp2" ["exp3"]).
  - reflexivity.
  - repeat constructor. vm_compute. discriminate.
  - vm_compute. reflexivity.
Defined.

(** The calls made on the store in the example, in order. *)
Example set_up_coverage_file_example :
  set_up_coverage_file ∅ (list store_event) example_ls_retcode
    (λ d, record_event (EvCreateDirectory d))
    (λ src dst, record_event (EvCp src dst))
    (λ archive d, record_event (EvExtractAll archive d))
    (λ path, record_event (EvRemove path))
    ["exp1"; "exp2"; "exp3"] "/reports" "b1" []
  = ([ EvCreateDirectory "/reports/b1";
       EvCp "gs://fuzzbench-data/exp2/coverage-binaries/coverage-build-b1.tar.gz"
            "/reports/b1";
       EvExtractAll "/reports/b1/coverage-build-b1.tar.gz" "/reports/b1";
       EvRemove "/reports/b1/coverage-build-b1.tar.gz" ], Ok tt).
Proof. vm_compute. reflexivity. Qed.

(** * Further properties of the code *)

(** ** Strings, lines and paths *)

Lemma append_inj_prefix (a x y : string) : a +:+ x = a +:+ y → x = y.
Proof.
  induction a as [|c a IH]; [done|].
  rewrite !append_cons. intros [= E]. by apply IH.
Qed.

Lemma append_length (a b : string) :
  String.length (a +:+ b) = (String.length a + String.length b)%nat.
Proof. induction a as [|c a IH]; [done|]. rewrite append_cons. simpl. by rewrite IH. Qed.

Lemma append_inj_suffix (x y a : string) : x +:+ a = y +:+ a → x = y.
Proof.
  intros E.
  assert (Hlen : String.length x = String.length y).
  { apply (f_equal String.length) in E. rewrite !append_length in E. lia. }
  revert y E Hlen. induction x as [|c x IH]; intros [|d y] E Hlen; try done.
  rewrite !append_cons in E. injection E as -> E. simpl in Hlen.
  f_equal. apply IH; [done|lia].
Qed.

Lemma append_assoc (a b c : string) : (a +:+ b) +:+ c = a +:+ b +:+ c.
Proof. induction a as [|x a IH]; [done|]. rewrite !append_cons. by rewrite IH. Qed.

Lemma ends_with_sep_append (a b : string) :
  b ≠ EmptyString → ends_with_sep (a +:+ b) = ends_with_sep b.
Proof.
  intros Hb. induction a as [|c a IH]; [done|].
  rewrite append_cons.
  destruct (a +:+ b) as [|d r] eqn:E.
  - destruct a; [by rewrite append_nil in E | by rewrite append_cons in E].
  - exact IH.
Qed.

(** [posixpath.join] of a component that does not end with a separator
    and a relative component puts one separator between them. *)
Lemma path_join_relative (a b : string) :
  a ≠ EmptyString → ends_with_sep a = false → starts_with_sep b = false →
  path_join a b = a +:+ "/" +:+ b.
Proof.
  intros Ha Hend Hb. unfold path_join. rewrite Hb, Hend.
  destruct a; [done|reflexivity].
Qed.

Lemma path_join_ends (a b : string) :
  b ≠ EmptyString → starts_with_sep b = false →
  path_join a b ≠ EmptyString ∧ ends_with_sep (path_join a b) = ends_with_sep b.
Proof.
  intros Hb Hstart. unfold path_join. rewrite Hstart.
  destruct (String.eqb a EmptyString || ends_with_sep a).
  - split; [|by apply ends_with_sep_append].
    destruct a; [by rewrite append_nil | by rewrite append_cons].
  - split.
    + destruct a; [by rewrite append_nil | by rewrite append_cons].
    + rewrite ends_with_sep_append by done.
      change ("/" +:+ b) with (EmptyString +:+ String "/" b).
      destruct b; [done|]. reflexivity.
Qed.

(** X1: the lines [readlines] returns are the text cut in pieces: glued
    together they give the text back, and each of them is one line, not
    empty, with a newline at its end or nowhere. *)
Theorem readlines_partition (text : string) :
  foldr String.append EmptyString (readlines text) = text
  ∧ Forall (λ line, single_line line = true) (readlines text).
Proof.
  induction text as [|c rest [IHcat IHall]]; [by split|].
  simpl. destruct (Ascii.eqb c newline) eqn:Hc.
  - split; [simpl; by rewrite IHcat|]. by constructor.
  - destruct (readlines rest) as [|line lines] eqn:E.
    + apply readlines_nil in E. subst rest. split; [done|]. by repeat constructor.
    + simpl in IHcat. split.
      * simpl. rewrite append_cons. by rewrite IHcat.
      * apply Forall_cons in IHall as [Hline Hlines]. constructor; [|done].
        destruct line as [|d line]; [done|].
        change (negb (Ascii.eqb c newline) && single_line (String d line) = true).
        by rewrite Hc, Hline.
Qed.

Lemma split_comma_length (text : string) :
  length (split_comma text) = S (count_commas text).
Proof.
  induction text as [|c rest IH]; [done|].
  simpl. destruct (Ascii.eqb c ","%char); simpl; [by rewrite IH|].
  destruct (split_comma rest); simpl in *; [done|lia].
Qed.

(** X2: the engine dispatches one task for each pair of the products of
    the two comma-separated lists, (1 + commas of fuzzers) * (1 + commas of
    benchmarks) tasks; in particular at least one, also for empty lists,
    whose only name is the empty string. *)
Theorem get_covered_region_args_count (config : experiment_config) :
  length (get_covered_region_args config)
  = (S (count_commas (cfg_fuzzers config))
     * S (count_commas (cfg_benchmarks config)))%nat
  ∧ get_covered_region_args config ≠ [].
Proof.
  assert (H : length (get_covered_region_args config)
    = (S (count_commas (cfg_fuzzers config))
       * S (count_commas (cfg_benchmarks config)))%nat).
  { by rewrite get_covered_region_args_length, !split_comma_length. }
  split; [exact H|]. intros E. rewrite E in H. simpl in H. lia.
Qed.

(** ** The trial registry *)


(** ** File names *)

(** X4: the profile files of two different trials have different names. *)
Theorem get_profdata_file_name_inj (trial_id trial_id' : Z) :
  trial_id ≠ trial_id' →
  get_profdata_file_name trial_id ≠ get_profdata_file_name trial_id'.
Proof.
  unfold get_profdata_file_name. intros Hne E. apply Hne.
  apply append_inj_prefix, append_inj_suffix in E. by apply (inj pretty).
Qed.

Lemma get_profdata_file_name_inj_witness :
  get_profdata_file_name 7 = "data-7.profdata"
  ∧ get_profdata_file_name 7 ≠ get_profdata_file_name 17.
Proof.
  split; [reflexivity|].
  apply (get_profdata_file_name_inj 7%Z 17%Z). discriminate.
Defined.

(** X5: the coverage archives of two different benchmarks have different
    names. *)
Theorem get_coverage_archive_name_inj (benchmark benchmark' : string) :
  benchmark ≠ benchmark' →
  get_coverage_archive_name benchmark ≠ get_coverage_archive_name benchmark'.
Proof.
  unfold get_coverage_archive_name. intros Hne E. apply Hne.
  by apply append_inj_prefix, append_inj_suffix in E.
Qed.

Lemma get_coverage_archive_name_inj_witness :
  get_coverage_archive_name "zlib" = "coverage-build-zlib.tar.gz"
  ∧ get_coverage_archive_name "zlib" ≠ get_coverage_archive_name "zlib_fuzzer".
Proof.
  split; [reflexivity|].
  apply (get_coverage_archive_name_inj "zlib" "zlib_fuzzer"). discriminate.
Defined.

(** ** The paths of a trial *)

Section TrialPaths.

Variable get_trial_dir : string → string → Z → string.
Variable get_work_dir : string.

Let trial := new_TrialCoverage get_trial_dir get_work_dir.

Lemma report_dir_shape (fuzzer benchmark : string) (trial_num : Z) :
  tc_report_dir (trial fuzzer benchmark trial_num) ≠ EmptyString
  ∧ ends_with_sep (tc_report_dir (trial fuzzer benchmark trial_num)) = false.
Proof. by apply path_join_ends. Qed.

Lemma summary_file_shape (fuzzer benchmark : string) (trial_num : Z) :
  tc_cov_summary_file (trial fuzzer benchmark trial_num)
  = tc_report_dir (trial fuzzer benchmark trial_num) +:+ "/cov_summary.json".
Proof.
  destruct (report_dir_shape fuzzer benchmark trial_num) as [Hne Hend].
  by apply path_join_relative.
Qed.

(** X6: whatever the work directory and the trial directory are, the
    summary file and the profile of a trial are the files
    [cov_summary.json] and [data.profdata] of its report directory, and
    they are two different files: [generate_summary] does not write over
    the profile it exports. *)
Theorem trial_files_in_report_dir (fuzzer benchmark : string) (trial_num : Z) :
  let self := trial fuzzer benchmark trial_num in
  tc_cov_summary_file self = tc_report_dir self +:+ "/cov_summary.json"
  ∧ tc_profdata_file self = tc_report_dir self +:+ "/data.profdata"
  ∧ tc_cov_summary_file self ≠ tc_profdata_file self.
Proof.
  intros self.
  destruct (report_dir_shape fuzzer benchmark trial_num) as [Hne Hend].
  pose proof (summary_file_shape fuzzer benchmark trial_num) as Hs.
  fold self in Hs.
  assert (Hp : tc_profdata_file self = tc_report_dir self +:+ "/data.profdata")
    by by apply path_join_relative.
  split; [done|]. split; [done|].
  rewrite Hs, Hp. intros E. by apply append_inj_prefix in E.
Qed.

(** X7: two trials whose directories are relative, not empty, without a
    separator at the end, and different, have different summary files. *)
Theorem trial_summary_files_differ (fuzzer benchmark fuzzer' benchmark' : string)
    (trial_num trial_num' : Z) :
  let d := get_trial_dir fuzzer benchmark trial_num in
  let d' := get_trial_dir fuzzer' benchmark' trial_num' in
  d ≠ EmptyString → starts_with_sep d = false → ends_with_sep d = false →
  d' ≠ EmptyString → starts_with_sep d' = false → ends_with_sep d' = false →
  d ≠ d' →
  tc_cov_summary_file (trial fuzzer benchmark trial_num)
  ≠ tc_cov_summary_file (trial fuzzer' benchmark' trial_num').
Proof.
  intros d d' Hd Hs He Hd' Hs' He' Hne E.
  rewrite (summary_file_shape fuzzer benchmark trial_num),
    (summary_file_shape fuzzer' benchmark' trial_num') in E. apply append_inj_suffix in E.
  unfold trial, new_TrialCoverage in E. simpl in E. fold d d' in E.
  set (p := path_join get_work_dir "measurement-folders") in E.
  destruct (path_join_ends get_work_dir "measurement-folders") as [Hp Hpe];
    [done|done|]. fold p in Hp, Hpe. simpl in Hpe.
  destruct (path_join_ends p d Hd Hs) as [Hm Hme].
  destruct (path_join_ends p d' Hd' Hs') as [Hm' Hme'].
  rewrite (path_join_relative (path_join p d) "reports") in E
    by (try done; congruence).
  rewrite (path_join_relative (path_join p d') "reports") in E
    by (try done; congruence).
  apply append_inj_suffix in E.
  rewrite !(path_join_relative p) in E by done.
  by apply append_inj_prefix, append_inj_prefix in E.
Qed.

End TrialPaths.

Lemma trial_summary_files_differ_witness :
  tc_cov_summary_file
    (new_TrialCoverage example_get_trial_dir "/work" "afl" "b1" 1)
  = "/work/measurement-folders/b1-afl/trial-1/reports/cov_summary.json"
  ∧ tc_cov_summary_file
      (new_TrialCoverage example_get_trial_dir "/work" "afl" "b1" 1)
    ≠ tc_cov_summary_file
        (new_TrialCoverage example_get_trial_dir "/work" "afl" "b1" 2).
Proof.
  split; [vm_compute; reflexivity|].
  apply (trial_summary_files_differ example_get_trial_dir "/work"
           "afl" "b1" "afl" "b1" 1%Z 2%Z);
    vm_compute; congruence.
Defined.

(** ** The paths of the archives *)

(** X8: with a storage root and an experiment name that are not empty and
    do not end with a separator, and an experiment name that is relative,
    the archive of a benchmark is
    [<root>/<experiment>/coverage-binaries/coverage-build-<benchmark>.tar.gz],
    where the root is the value of EXPERIMENT_FILESTORE when the variable
    is set and gs://fuzzbench-data otherwise.  An experiment name that
    starts with a separator makes the storage path the name itself. *)
Theorem get_benchmark_archive_layout (environ : gmap string string)
    (experiment benchmark : string) :
  let root := default "gs://fuzzbench-data" (environ !! "EXPERIMENT_FILESTORE") in
  (root ≠ EmptyString → ends_with_sep root = false →
   experiment ≠ EmptyString → starts_with_sep experiment = false →
   ends_with_sep experiment = false →
   get_benchmark_archive environ experiment benchmark
   = root +:+ "/" +:+ experiment +:+ "/coverage-binaries/coverage-build-"
     +:+ benchmark +:+ ".tar.gz")
  ∧ (starts_with_sep experiment = true →
     get_experiment_filestore_path environ experiment = experiment).
Proof.
  intros root. split.
  - intros Hroot Hrend He Hes Hee.
    unfold get_benchmark_archive, get_experiment_filestore_path,
      get_coverage_archive_name.
    assert (Hr : match environ !! "EXPERIMENT_FILESTORE" with
                 | Some v => v
                 | None => "gs://fuzzbench-data"
                 end = root).
    { unfold root. by destruct (environ !! "EXPERIMENT_FILESTORE"). }
    rewrite Hr.
    destruct (path_join_ends root experiment He Hes) as [H1 H1e].
    rewrite Hee in H1e.
    destruct (path_join_ends (path_join root experiment) "coverage-binaries")
      as [H2 H2e]; [done|done|]. simpl in H2e.
    rewrite (path_join_relative _ ("coverage-build-" +:+ benchmark +:+ ".tar.gz"))
      by done.
    rewrite (path_join_relative _ "coverage-binaries") by done.
    rewrite (path_join_relative root experiment) by done.
    by rewrite !append_assoc.
  - intros Hs. unfold get_experiment_filestore_path, path_join. by rewrite Hs.
Qed.

Lemma get_benchmark_archive_layout_witness :
  get_benchmark_archive {[ "EXPERIMENT_FILESTORE" := "/mnt/store" ]}
    "exp1" "zlib"
  = "/mnt/store/exp1/coverage-binaries/coverage-build-zlib.tar.gz".
Proof.
  etrans.
  - apply (proj1 (get_benchmark_archive_layout
                    {[ "EXPERIMENT_FILESTORE" := "/mnt/store" ]} "exp1" "zlib"));
      vm_compute; congruence.
  - vm_compute. reflexivity.
Defined.

(** ** The extractor on arbitrary documents *)

Lemma chars_are_strings (s : string) (x : json) :
  x ∈ chars s → ∃ c, x = JStr c.
Proof.
  induction s as [|c s IH]; simpl; [by intros ?%elem_of_nil|].
  intros [->|H]%elem_of_cons; [by eexists|by apply IH].
Qed.

Lemma last_elem_of {A} (l : list A) (x : A) : last l = Some x → x ∈ l.
Proof.
  intros H. apply last_Some in H as [l' ->].
  apply elem_of_app. right. by apply list_elem_of_singleton.
Qed.

Lemma hashable_tuple_length (items : list json) (t : Region) :
  hashable_tuple items = Ok t → length t = length items.
Proof.
  revert t. induction items as [|x items IH]; intros t; simpl.
  - by intros [= <-].
  - destruct (hashable x); [|done].
    destruct (hashable_tuple items) as [fs|]; [|done].
    intros [= <-]. simpl. by rewrite (IH fs).
Qed.

Lemma scan_region_sound (region : json) (covered : RegionSet) (t : Region) :
  t ∈ (scan_region region covered).1 → t ∈ covered ∨ hit_code_record region t.
Proof.
  unfold scan_region. rewrite st_bind_unfold. unfold st_lift at 1.
  destruct (getitem_int region hit_index) as [hit|e] eqn:Hhit; [|by left].
  destruct (ne_zero hit) eqn:Hne; [|by left].
  rewrite st_bind_unfold. unfold st_lift at 1.
  destruct (getitem_last region) as [kind|e] eqn:Hkind; [|by left].
  destruct (eq_zero kind) eqn:Heq; [|by left].
  rewrite st_bind_unfold. unfold st_lift at 1.
  destruct (slice_to region hit_index) as [items|e] eqn:Hslice; [|by left].
  rewrite st_bind_unfold. unfold st_lift at 1.
  destruct (hashable_tuple items) as [t0|e] eqn:Hhash; [|by left].
  simpl. intros [Ht%elem_of_singleton|Ht]%elem_of_union; [|by left].
  subst t0. right. destruct region as [| | | s | l |]; try done.
  - simpl in Hkind. destruct (last (chars s)) as [x|] eqn:Hl; [|done].
    injection Hkind as <-.
    apply last_elem_of, chars_are_strings in Hl as [c ->]. done.
  - simpl in Hhit, Hkind, Hslice. unfold hit_index in *.
    destruct (l !! 4%nat) as [h|] eqn:Hh; [|done]. injection Hhit as <-.
    destruct (last l) as [k|] eqn:Hk; [|done]. injection Hkind as <-.
    injection Hslice as <-. by exists l, h, k.
Qed.

Lemma for_each_sound {A} (P : A → Region → Prop)
    (body : A → St RegionSet unit) (l : list A) :
  (∀ x covered t, t ∈ (body x covered).1 → t ∈ covered ∨ P x t) →
  ∀ covered t, t ∈ (for_each l body covered).1 →
               t ∈ covered ∨ ∃ x, x ∈ l ∧ P x t.
Proof.
  intros Hbody. induction l as [|x l IH]; intros covered t; simpl.
  - by left.
  - unfold st_bind. pose proof (Hbody x covered t) as Hx.
    destruct (body x covered) as [covered' [[]|e]]; simpl in *.
    + intros [Ht|(y & Hy & HP)]%IH.
      * destruct (Hx Ht) as [?|?]; [by left|]. right. exists x. split; [|done].
        apply elem_of_cons. by left.
      * right. exists y. split; [|done]. apply elem_of_cons. by right.
    + intros Ht. destruct (Hx Ht) as [?|?]; [by left|]. right. exists x.
      split; [|done]. apply elem_of_cons. by left.
Qed.

Lemma scan_function_sound (function_data : json) (covered : RegionSet)
    (t : Region) :
  t ∈ (scan_function function_data covered).1 →
  t ∈ covered
  ∨ ∃ regions items region,
      getitem_str function_data "regions" = Ok regions
      ∧ iterate regions = Ok items
      ∧ region ∈ items ∧ hit_code_record region t.
Proof.
  unfold scan_function. rewrite st_bind_unfold. unfold st_lift at 1.
  destruct (getitem_str function_data "regions") as [regions|e]; [|by left].
  rewrite st_bind_unfold. unfold st_lift at 1.
  destruct (iterate regions) as [items|e] eqn:Hit; [|by left].
  intros [?|(region & Hin & Hrec)]%(for_each_sound hit_code_record);
    [by left| |apply scan_region_sound].
  right. by exists regions, items, region.
Qed.

Section ExtractorSoundness.

Variable json_loads : string → result json.

Lemma try_extract_sound (fs : FS) (self : TrialCoverage) (t : Region) :
  t ∈ (try_extract json_loads fs self ∅).1 →
  ∃ coverage_info region,
    get_coverage_infomation json_loads fs (tc_cov_summary_file self)
    = Ok coverage_info
    ∧ record_of coverage_info region ∧ hit_code_record region t.
Proof.
  unfold try_extract. rewrite st_bind_unfold. unfold st_lift at 1.
  destruct (get_coverage_infomation json_loads fs (tc_cov_summary_file self))
    as [info|e]; [|by intros ?%elem_of_empty].
  rewrite st_bind_unfold. unfold st_lift at 1.
  destruct (functions_of info) as [fds|e] eqn:Hf; [|by intros ?%elem_of_empty].
  intros [?%elem_of_empty|(fd & Hfd & regions & items & region & ? & ? & ? & ?)]
    %(for_each_sound (λ fd t, ∃ regions items region,
        getitem_str fd "regions" = Ok regions ∧ iterate regions = Ok items
        ∧ region ∈ items ∧ hit_code_record region t));
    [done| |apply scan_function_sound].
  exists info, region. split; [done|]. split; [|done].
  by exists fds, fd, regions, items.
Qed.

Lemma returned_set_is_extracted (fs : FS) (self : TrialCoverage) :
  (get_current_covered_regions json_loads fs self).1
  = (try_extract json_loads fs self ∅).1.
Proof.
  unfold get_current_covered_regions.
  by destruct (try_extract json_loads fs self ∅) as [covered [[]|e]].
Qed.

(** X9: on any file system and any document, also a malformed one, every
    tuple [get_current_covered_regions] returns comes from the last line of
    the summary file: it is the tuple of the first four items of an array
    that the two loops meet, whose fifth item is not zero and whose last
    item is zero. *)
Theorem get_current_covered_regions_sound (fs : FS) (self : TrialCoverage)
    (t : Region) :
  t ∈ (get_current_covered_regions json_loads fs self).1 →
  ∃ coverage_info region,
    get_coverage_infomation json_loads fs (tc_cov_summary_file self)
    = Ok coverage_info
    ∧ record_of coverage_info region ∧ hit_code_record region t.
Proof.
  rewrite returned_set_is_extracted. intros Ht.
  destruct (try_extract_sound fs self t Ht) as (info & region & ? & ? & ?).
  by exists info, region.
Qed.

(** X10: every tuple [get_current_covered_regions] returns has exactly
    four fields, whatever the summary file holds. *)
Theorem get_current_covered_regions_four_fields (fs : FS) (self : TrialCoverage)
    (t : Region) :
  t ∈ (get_current_covered_regions json_loads fs self).1 → length t = 4%nat.
Proof.
  rewrite returned_set_is_extracted. intros Ht.
  destruct (try_extract_sound fs self t Ht)
    as (_ & _ & _ & _ & items & hit & kind & _ & Hhit & _ & _ & _ & Hhash).
  apply hashable_tuple_length in Hhash. rewrite Hhash, length_take.
  apply lookup_lt_Some in Hhit. lia.
Qed.

Lemma extract_well_formed (fs : FS) (self : TrialCoverage)
    (coverage_info : json) (functions : list (list (list Z))) :
  get_coverage_infomation json_loads fs (tc_cov_summary_file self)
  = Ok coverage_info →
  summary_shape coverage_info functions →
  Forall (Forall (λ r, (5 ≤ length r)%nat)) functions →
  get_current_covered_regions json_loads fs self
  = (covered_regions_of (concat functions), []).
Proof.
  intros Hinfo (first & others & fds & Hdata & Hfuns & Hshape) Hlen.
  unfold get_current_covered_regions, try_extract.
  rewrite st_bind_unfold. unfold st_lift at 1. rewrite Hinfo.
  rewrite st_bind_unfold. unfold st_lift at 1.
  unfold functions_of. rewrite Hdata.
  change (getitem_int (JArr (first :: others)) 0) with (Ok first).
  cbv beta iota. rewrite Hfuns.
  cbv beta iota. simpl iterate. cbv beta iota.
  rewrite (scan_functions_shape _ _ _ Hshape Hlen).
  f_equal. set_solver.
Qed.

(** X11: on summaries of integer records with at least five fields the
    set returned depends on the records only: two summaries with the same
    records, in any order, spread over the functions in any way and
    repeated any number of times, give the same set. *)
Theorem get_current_covered_regions_order (fs fs' : FS) (self self' : TrialCoverage)
    (coverage_info coverage_info' : json)
    (functions functions' : list (list (list Z))) :
  get_coverage_infomation json_loads fs (tc_cov_summary_file self)
  = Ok coverage_info →
  get_coverage_infomation json_loads fs' (tc_cov_summary_file self')
  = Ok coverage_info' →
  summary_shape coverage_info functions →
  summary_shape coverage_info' functions' →
  Forall (Forall (λ r, (5 ≤ length r)%nat)) functions →
  Forall (Forall (λ r, (5 ≤ length r)%nat)) functions' →
  (∀ r, r ∈ concat functions ↔ r ∈ concat functions') →
  get_current_covered_regions json_loads fs self
  = get_current_covered_regions json_loads fs' self'.
Proof.
  intros Hi Hi' Hs Hs' Hl Hl' Hsame.
  rewrite (extract_well_formed _ _ _ _ Hi Hs Hl),
    (extract_well_formed _ _ _ _ Hi' Hs' Hl').
  f_equal. apply set_eq. intros t. rewrite !elem_of_covered_regions_of.
  split; intros (r & hit & Hr & H); exists r, hit; (split; [by apply Hsame|done]).
Qed.

End ExtractorSoundness.

Lemma get_current_covered_regions_sound_witness :
  ∃ coverage_info region,
    get_coverage_infomation loads (example_files example_summary)
      (tc_cov_summary_file example_trial) = Ok coverage_info
    ∧ record_of coverage_info region ∧ hit_code_record region region_a.
Proof.
  apply (get_current_covered_regions_sound loads
           (example_files example_summary) example_trial region_a).
  apply (bool_decide_unpack _). vm_compute. exact I.
Defined.

Lemma get_current_covered_regions_four_fields_witness :
  length region_a = 4%nat.
Proof.
  apply (get_current_covered_regions_four_fields loads
           (example_files example_summary) example_trial region_a).
  apply (bool_decide_unpack _). vm_compute. exact I.
Defined.

Lemma get_current_covered_regions_order_witness :
  get_current_covered_regions loads (example_files example_summary)
    example_trial
  = get_current_covered_regions loads (example_files example_summary_shuffled)
      example_trial.
Proof.
  eapply (get_current_covered_regions_order loads _ _ _ _ _ _
            example_functions example_functions_shuffled).
  - vm_compute. reflexivity.
  - vm_compute. reflexivity.
  - eexists _, _, _. split; [reflexivity|]. split; [reflexivity|].
    repeat (constructor; [reflexivity|]). constructor.
  - eexists _, _, _. split; [reflexivity|]. split; [reflexivity|].
    repeat (constructor; [reflexivity|]). constructor.
  - repeat constructor; simpl; lia.
  - repeat constructor; simpl; lia.
  - intros r. simpl. rewrite !elem_of_cons, !elem_of_nil. tauto.
Defined.

(** ** [generate_summary] *)

Lemma for_each_modify {S A} (f : A → S → S) (l : list A) (s : S) :
  for_each l (λ x, st_modify (f x)) s = (foldl (λ s x, f x s) s l, Ok tt).
Proof.
  revert s. induction l as [|x l IH]; intros s; [done|].
  simpl. unfold st_bind, st_modify at 1. by rewrite IH.
Qed.

Lemma get_current_covered_regions_file_only (json_loads : string → result json)
    (fs fs' : FS) (self : TrialCoverage) :
  fs !! tc_cov_summary_file self = fs' !! tc_cov_summary_file self →
  get_current_covered_regions json_loads fs self
  = get_current_covered_regions json_loads fs' self.
Proof.
  intros E. unfold get_current_covered_regions, try_extract.
  rewrite !st_bind_unfold. unfold st_lift at 1 3.
  unfold get_coverage_infomation. by rewrite E.
Qed.

Section SummaryFacts.

Variable json_loads : string → result json.
Variable get_trial_dir : string → string → Z → string.
Variable get_work_dir : string.
Variable get_coverage_binaries_dir : string.
Variable get_fuzz_target : string → string.
Variable get_fuzz_target_binary : string → string → string.
Variable execute : list string → FS → result (Z * string).

Let summarize := generate_summary get_coverage_binaries_dir get_fuzz_target
                   get_fuzz_target_binary execute.
Let binary_of := get_coverage_binary get_coverage_binaries_dir get_fuzz_target
                   get_fuzz_target_binary.

Lemma generate_summary_outcome (self : TrialCoverage) (cycle : Z)
    (summary_only : bool) (w : world) :
  summarize self cycle summary_only w =
  match execute
          (export_command (binary_of (tc_benchmark self)) (tc_profdata_file self)
             summary_only)
          (<[tc_cov_summary_file self := EmptyString]> (files w)) with
  | Ok (retcode, text) =>
      ({| files := <[tc_cov_summary_file self := text]> (files w);
          error_log := error_log w ++ generation_records retcode cycle;
          channel := channel w |}, Ok tt)
  | Raise e =>
      ({| files := <[tc_cov_summary_file self := EmptyString]> (files w);
          error_log := error_log w;
          channel := channel w |}, Raise e)
  end.
Proof.
  unfold summarize, generate_summary, export_command, binary_of.
  rewrite st_bind_unfold. unfold st_modify at 1.
  rewrite st_bind_unfold. unfold st_get at 1.
  rewrite st_bind_unfold. unfold st_lift at 1. cbn [files set_files].
  destruct (execute _ _) as [[retcode text]|e]; [|reflexivity].
  rewrite st_bind_unfold. unfold st_modify at 1.
  unfold set_files. cbn [files error_log channel fst snd].
  rewrite insert_insert_eq. unfold generation_records.
  destruct (Z.eqb retcode 0); cbn [negb].
  - unfold mret, St_ret, st_ret. by rewrite app_nil_r.
  - rewrite st_bind_unfold. unfold st_modify at 1.
    destruct (Z.eqb cycle 0); cbn [negb]; unfold st_modify, log_error;
      cbn [files error_log channel]; by rewrite <- app_assoc.
Qed.

(** X12: [generate_summary] changes one file, the summary file of the
    trial: after it the file holds what the export tool printed, or
    nothing when the tool could not be run; every other file, and the
    results queue, are as before. *)
Theorem generate_summary_writes_summary_only (self : TrialCoverage) (cycle : Z)
    (summary_only : bool) (w : world) :
  let w' := (summarize self cycle summary_only w).1 in
  let outcome :=
    execute (export_command (binary_of (tc_benchmark self))
               (tc_profdata_file self) summary_only)
            (<[tc_cov_summary_file self := EmptyString]> (files w)) in
  files w' !! tc_cov_summary_file self
  = Some (match outcome with Ok (_, text) => text | Raise _ => EmptyString end)
  ∧ (∀ path, path ≠ tc_cov_summary_file self →
             files w' !! path = files w !! path)
  ∧ channel w' = channel w.
Proof.
  intros w' outcome. subst w' outcome. rewrite generate_summary_outcome.
  destruct (execute _ _) as [[retcode text]|e]; cbn [fst files channel];
    (split; [apply lookup_insert_eq|]);
    (split; [intros path Hp; by apply lookup_insert_ne|done]).
Qed.

(** X13: the exit status of the export tool never makes
    [generate_summary] raise.  When the tool ran, [generate_summary]
    returns; it has logged nothing for the status 0 and two error records
    for any other status: the record of the cycle, then, for the cycle 0,
    the record of the failure in the end. *)
Theorem generate_summary_exit_status (self : TrialCoverage) (cycle : Z)
    (summary_only : bool) (w : world) (retcode : Z) (text : string) :
  execute (export_command (binary_of (tc_benchmark self))
             (tc_profdata_file self) summary_only)
          (<[tc_cov_summary_file self := EmptyString]> (files w))
  = Ok (retcode, text) →
  (summarize self cycle summary_only w).2 = Ok tt
  ∧ error_log (summarize self cycle summary_only w).1
    = error_log w ++ generation_records retcode cycle
  ∧ length (generation_records retcode cycle)
    = (if Z.eqb retcode 0 then 0 else 2)%nat
  ∧ (retcode ≠ 0%Z →
     generation_records retcode 0
     = [ (generation_failed_cycle_msg, [0%Z]); (generation_failed_end_msg, []) ]).
Proof.
  intros Hrun. rewrite generate_summary_outcome, Hrun. cbn [fst snd error_log].
  split; [done|]. split; [done|]. unfold generation_records. split.
  - by destruct (Z.eqb retcode 0).
  - intros Hne. apply Z.eqb_neq in Hne. by rewrite Hne.
Qed.

(** X14: what [get_current_covered_regions] reads after
    [generate_summary] is what the export tool printed: the outcome is the
    one on a file system that holds nothing but the tool's text in the
    summary file, whatever the summary file held before. *)
Theorem generate_summary_then_extract (self : TrialCoverage) (cycle : Z)
    (summary_only : bool) (w : world) (retcode : Z) (text : string) :
  execute (export_command (binary_of (tc_benchmark self))
             (tc_profdata_file self) summary_only)
          (<[tc_cov_summary_file self := EmptyString]> (files w))
  = Ok (retcode, text) →
  get_current_covered_regions json_loads
    (files (summarize self cycle summary_only w).1) self
  = get_current_covered_regions json_loads
      {[ tc_cov_summary_file self := text ]} self.
Proof.
  intros Hrun. apply get_current_covered_regions_file_only.
  rewrite generate_summary_outcome, Hrun. cbn [fst files].
  by rewrite lookup_insert_eq, lookup_singleton_eq.
Qed.

End SummaryFacts.

Lemma generate_summary_exit_status_witness :
  (example_generate_summary example_failing_trial 0 false empty_world).2 = Ok tt
  ∧ error_log (example_generate_summary example_failing_trial 0 false
                 empty_world).1
    = error_log empty_world ++ generation_records 1 0
  ∧ length (generation_records 1 0) = (if Z.eqb 1 0 then 0 else 2)%nat
  ∧ (1%Z ≠ 0%Z →
     generation_records 1 0
     = [ (generation_failed_cycle_msg, [0%Z]); (generation_failed_end_msg, []) ]).
Proof.
  apply (generate_summary_exit_status "/work/coverage-binaries"
           (λ _, "fuzz-target") example_get_fuzz_target_binary example_execute
           example_failing_trial 0%Z false empty_world 1%Z EmptyString).
  vm_compute. reflexivity.
Defined.

Lemma generate_summary_then_extract_witness :
  get_current_covered_regions loads
    (files (example_generate_summary example_trial_2 0 false empty_world).1)
    example_trial_2
  = get_current_covered_regions loads
      {[ tc_cov_summary_file example_trial_2 := example_summary_2 ]}
      example_trial_2.
Proof.
  apply (generate_summary_then_extract loads "/work/coverage-binaries"
           (λ _, "fuzz-target") example_get_fuzz_target_binary example_execute
           example_trial_2 0%Z false empty_world 0%Z example_summary_2).
  vm_compute. reflexivity.
Defined.

(** ** The reducer as a union *)

Section ReducerUnion.

Variable json_loads : string → result json.
Variable get_trial_dir : string → string → Z → string.
Variable get_work_dir : string.
Variable get_coverage_binaries_dir : string.
Variable get_fuzz_target : string → string.
Variable get_fuzz_target_binary : string → string → string.
Variable execute : list string → FS → result (Z * string).

(** What the export tool prints does not depend on the summary files. *)
Hypothesis execute_stateless : ∀ command fs fs',
  execute command fs = execute command fs'.

Let contribution := trial_contribution json_loads get_trial_dir get_work_dir
                      get_coverage_binaries_dir get_fuzz_target
                      get_fuzz_target_binary execute.
Let runs := export_runs get_trial_dir get_work_dir get_coverage_binaries_dir
              get_fuzz_target get_fuzz_target_binary execute.

Lemma current_covered_regions_value (self : TrialCoverage) (w : world) :
  (current_covered_regions json_loads self w).2
  = Ok (get_current_covered_regions json_loads (files w) self).1.
Proof.
  unfold current_covered_regions. rewrite st_bind_unfold. unfold st_get at 1.
  rewrite st_bind_unfold, for_each_modify. reflexivity.
Qed.

Lemma measure_trials_union (fuzzer benchmark key : string) (trial_ids : list Z)
    (covered : RegionSet) (w : world) :
  Forall (runs fuzzer benchmark) trial_ids →
  ∃ w', measure_trials json_loads get_trial_dir get_work_dir
          get_coverage_binaries_dir get_fuzz_target get_fuzz_target_binary
          execute fuzzer benchmark key trial_ids {[key := covered]} w
        = (w', Ok {[key := covered ∪ ⋃ (contribution fuzzer benchmark <$> trial_ids)]})
        ∧ channel w' = channel w.
Proof.
  intros Hruns. revert covered w.
  induction Hruns as [|trial_id rest Hrun _ IH]; intros covered w.
  - exists w. split; [|done].
    by rewrite fmap_nil, union_list_nil, (right_id_L ∅ (∪)).
  - cbn [measure_trials]. cbv zeta.
    set (self := new_TrialCoverage get_trial_dir get_work_dir fuzzer benchmark
                   trial_id).
    rewrite st_bind_unfold.
    rewrite (generate_summary_outcome get_coverage_binaries_dir get_fuzz_target
               get_fuzz_target_binary execute self 0 false w).
    unfold runs, export_runs in Hrun. fold self in Hrun.
    assert (Hc : contribution fuzzer benchmark trial_id
                 = match execute
                           (export_command
                              (get_coverage_binary get_coverage_binaries_dir
                                 get_fuzz_target get_fuzz_target_binary benchmark)
                              (tc_profdata_file self) false) ∅ with
                   | Ok (_, text) =>
                       (get_current_covered_regions json_loads
                          {[ tc_cov_summary_file self := text ]} self).1
                   | Raise _ => ∅
                   end) by reflexivity.
    rewrite (execute_stateless _ _ ∅).
    change (tc_benchmark self) with benchmark.
    destruct (execute _ ∅) as [[retcode text]|e]; [|done].
    cbv beta iota.
    set (w1 := {| files := <[tc_cov_summary_file self := text]> (files w);
                  error_log := error_log w ++ generation_records retcode 0;
                  channel := channel w |}).
    rewrite st_bind_unfold.
    pose proof (current_covered_regions_value self w1) as Hval.
    pose proof (current_covered_regions_keeps_channel json_loads self w1) as Hch.
    destruct (current_covered_regions json_loads self w1) as [w2 r].
    simpl in Hval, Hch. subst r. cbv beta iota.
    rewrite lookup_total_singleton_eq, insert_singleton_eq.
    destruct (IH (covered ∪ (get_current_covered_regions json_loads (files w1)
                              self).1) w2) as (w' & Hm & Hch').
    exists w'. split; [|by rewrite Hch', Hch].
    etrans; [exact Hm|]. do 3 f_equal. rewrite fmap_cons, union_list_cons, Hc.
    rewrite (get_current_covered_regions_file_only json_loads (files w1)
               {[ tc_cov_summary_file self := text ]} self).
    + set_solver.
    + unfold w1. cbn [files]. by rewrite lookup_insert_eq, lookup_singleton_eq.
Qed.

Lemma get_covered_region_put_union (trials : list Trial)
    (experiment fuzzer benchmark : string) (w : world) :
  Forall (runs fuzzer benchmark)
         (get_trial_ids trials experiment fuzzer benchmark) →
  ∃ w' : world,
    get_covered_region json_loads trials get_trial_dir get_work_dir
      get_coverage_binaries_dir get_fuzz_target get_fuzz_target_binary execute
      experiment fuzzer benchmark w = (w', Ok tt)
    ∧ channel w'
      = channel w
        ++ [{[get_fuzzer_benchmark_key fuzzer benchmark :=
                ⋃ (contribution fuzzer benchmark
                     <$> get_trial_ids trials experiment fuzzer benchmark)]}].
Proof.
  intros Hruns. unfold get_covered_region. cbv zeta.
  rewrite st_bind_unfold.
  destruct (measure_trials_union fuzzer benchmark
              (get_fuzzer_benchmark_key fuzzer benchmark) _ ∅ w Hruns)
    as (w1 & Hm & Hch).
  rewrite Hm. cbv beta iota. eexists. split; [reflexivity|].
  cbn [q_put channel]. by rewrite Hch, (left_id_L ∅ (∪)).
Qed.

(** X15: when what the export tool prints does not depend on the
    summary files, and the tool can be run on the profile of every trial of
    the pair, [get_covered_region] returns and the item it puts maps the
    key of the pair to the union, over the trial ids of the pair, of the
    regions extracted from the tool's text for the trial: a region is in
    the set exactly when some trial contributes it. *)
Theorem get_covered_region_union (trials : list Trial)
    (experiment fuzzer benchmark : string) (w : world) :
  let trial_ids := get_trial_ids trials experiment fuzzer benchmark in
  Forall (runs fuzzer benchmark) trial_ids →
  ∃ (w' : world) (covered : RegionSet),
    get_covered_region json_loads trials get_trial_dir get_work_dir
      get_coverage_binaries_dir get_fuzz_target get_fuzz_target_binary execute
      experiment fuzzer benchmark w = (w', Ok tt)
    ∧ channel w'
      = channel w ++ [{[get_fuzzer_benchmark_key fuzzer benchmark := covered]}]
    ∧ covered = ⋃ (contribution fuzzer benchmark <$> trial_ids)
    ∧ (∀ region, region ∈ covered ↔
                 ∃ trial_id, trial_id ∈ trial_ids
                             ∧ region ∈ contribution fuzzer benchmark trial_id).
Proof.
  intros trial_ids Hruns.
  destruct (get_covered_region_put_union trials experiment fuzzer benchmark w
              Hruns) as (w' & Hrun & Hch).
  exists w', (⋃ (contribution fuzzer benchmark <$> trial_ids)).
  split; [done|]. split; [done|]. split; [done|].
  intros region. rewrite elem_of_union_list. split.
  - intros (X & HX & Hin).
    apply list_elem_of_fmap in HX as (id & -> & Hid). by exists id.
  - intros (id & Hid & Hin). eexists. split; [|exact Hin].
    by apply list_elem_of_fmap_2.
Qed.

(** X16: under the same conditions the item put does not depend on the
    order of the trial ids nor on their repetition: two trial tables whose
    pair has the same ids, in any order, give the same item. *)
Theorem get_covered_region_order (trials trials' : list Trial)
    (experiment fuzzer benchmark : string) (w : world) :
  let trial_ids := get_trial_ids trials experiment fuzzer benchmark in
  let trial_ids' := get_trial_ids trials' experiment fuzzer benchmark in
  Forall (runs fuzzer benchmark) trial_ids →
  (∀ trial_id, trial_id ∈ trial_ids ↔ trial_id ∈ trial_ids') →
  last (channel
          (get_covered_region json_loads trials get_trial_dir get_work_dir
             get_coverage_binaries_dir get_fuzz_target get_fuzz_target_binary
             execute experiment fuzzer benchmark w).1)
  = last (channel
            (get_covered_region json_loads trials' get_trial_dir get_work_dir
               get_coverage_binaries_dir get_fuzz_target get_fuzz_target_binary
               execute experiment fuzzer benchmark w).1).
Proof.
  intros trial_ids trial_ids' Hruns Hsame.
  assert (Hruns' : Forall (runs fuzzer benchmark) trial_ids').
  { rewrite Forall_forall in Hruns |- *. intros id Hid. by apply Hruns, Hsame. }
  destruct (get_covered_region_put_union trials experiment fuzzer benchmark w
              Hruns) as (w1 & Hr & Hc).
  destruct (get_covered_region_put_union trials' experiment fuzzer benchmark w
              Hruns') as (w1' & Hr' & Hc').
  rewrite Hr, Hr'. cbn [fst]. rewrite Hc, Hc', !last_snoc. do 2 f_equal.
  apply set_eq. intros region. rewrite !elem_of_union_list.
  split; intros (X & (id & -> & Hid)%list_elem_of_fmap & Hin);
    (eexists; split; [apply list_elem_of_fmap_2, Hsame, Hid|exact Hin]).
Qed.

End ReducerUnion.

Lemma get_covered_region_union_witness :
  ∃ (w' : world) (covered : RegionSet),
    example_reducer "exp" "afl" "b1" empty_world = (w', Ok tt)
    ∧ channel w'
      = channel empty_world ++ [{[get_fuzzer_benchmark_key "afl" "b1" := covered]}]
    ∧ covered = ⋃ (example_contribution "afl" "b1"
                     <$> get_trial_ids example_trials "exp" "afl" "b1")
    ∧ (∀ region, region ∈ covered ↔
                 ∃ trial_id,
                   trial_id ∈ get_trial_ids example_trials "exp" "afl" "b1"
                   ∧ region ∈ example_contribution "afl" "b1" trial_id).
Proof.
  apply (get_covered_region_union loads example_get_trial_dir "/work"
           "/work/coverage-binaries" (λ _, "fuzz-target")
           example_get_fuzz_target_binary example_execute
           (λ _ _ _, eq_refl) example_trials "exp" "afl" "b1" empty_world).
  repeat constructor.
Defined.

Lemma get_covered_region_order_witness :
  last (channel (example_reducer "exp" "afl" "b1" empty_world).1)
  = last (channel
            (get_covered_region loads example_trials_reordered
               example_get_trial_dir "/work" "/work/coverage-binaries"
               (λ _, "fuzz-target") example_get_fuzz_target_binary
               example_execute "exp" "afl" "b1" empty_world).1).
Proof.
  apply (get_covered_region_order loads example_get_trial_dir "/work"
           "/work/coverage-binaries" (λ _, "fuzz-target")
           example_get_fuzz_target_binary example_execute
           (λ _ _ _, eq_refl) example_trials example_trials_reordered
           "exp" "afl" "b1" empty_world).
  - repeat constructor.
  - intros trial_id. vm_compute get_trial_ids.
    rewrite !elem_of_cons, !elem_of_nil. tauto.
Defined.

(** ** The receive loop, for any reducer *)

Section LoopFacts.

Variable reducer : string → string → string → St world unit.



End LoopFacts.


Lemma engine_drains_witness :
  ∃ e', run example_reducer
          (replicate (length (channel (env drain_engine)) + 2) Engine)
          drain_engine = Some e'
        ∧ pc e' = Exited
        ∧ channel (env e') = []
        ∧ tasks e' = tasks drain_engine
        ∧ all_covered_regions e'
          = foldl dict_update (all_covered_regions drain_engine)
              (channel (env drain_engine)).
Proof.
  apply (engine_drains example_reducer drain_engine); reflexivity.
Defined.

(** ** The merge of the received items *)

Lemma omap_cons_eq {A B} (f : A → option B) (x : A) (l : list A) :
  omap f (x :: l)
  = match f x with Some y => y :: omap f l | None => omap f l end.
Proof. reflexivity. Qed.

Lemma foldl_dict_update_lookup (items : list (gmap string RegionSet))
    (d : gmap string RegionSet) (k : string) :
  foldl dict_update d items !! k
  = match last_received k items with
    | Some covered => Some covered
    | None => d !! k
    end.
Proof.
  unfold last_received. revert d.
  induction items as [|item items IH]; intros d; [done|].
  simpl foldl. rewrite IH. unfold dict_update. rewrite omap_cons_eq.
  destruct (item !! k) as [v|] eqn:Hv.
  - destruct (omap (λ item0 : gmap string RegionSet, item0 !! k) items)
      as [|x l] eqn:E.
    + simpl. by apply lookup_union_Some_l.
    + rewrite last_cons_cons.
      destruct (last (x :: l)) eqn:El; [done|]. by apply last_None in El.
  - destruct (last (omap _ items)); [done|]. by apply lookup_union_r.
Qed.

(** X18: after the engine has received the items of the queue in their
    order, the dictionary maps a key to the set of the last item that has
    the key, and to what it mapped it to before when no item has the key. *)
Theorem merge_last_wins (items : list (gmap string RegionSet))
    (d : gmap string RegionSet) (k : string) :
  (∀ item covered rest,
     items = rest ++ [item] → item !! k = Some covered →
     foldl dict_update d items !! k = Some covered)
  ∧ (∀ before item covered after,
       items = before ++ item :: after → item !! k = Some covered →
       Forall (λ later : gmap string RegionSet, later !! k = None) after →
       foldl dict_update d items !! k = Some covered)
  ∧ (Forall (λ item : gmap string RegionSet, item !! k = None) items →
     foldl dict_update d items !! k = d !! k).
Proof.
  assert (Hnone : ∀ l : list (gmap string RegionSet),
    Forall (λ item : gmap string RegionSet, item !! k = None) l →
    omap (λ item : gmap string RegionSet, item !! k) l = []).
  { induction 1 as [|x l Hx _ IH]; [done|]. by rewrite omap_cons_eq, Hx. }
  assert (Hmid : ∀ before item covered after,
    items = before ++ item :: after → item !! k = Some covered →
    Forall (λ later : gmap string RegionSet, later !! k = None) after →
    foldl dict_update d items !! k = Some covered).
  { intros before item covered after -> Hitem Hafter.
    rewrite foldl_dict_update_lookup. unfold last_received.
    rewrite omap_app, omap_cons_eq, Hitem, (Hnone _ Hafter).
    by rewrite last_snoc. }
  split; [|split].
  - intros item covered rest -> Hitem. by apply (Hmid rest item covered []).
  - exact Hmid.
  - intros Hall. rewrite foldl_dict_update_lookup. unfold last_received.
    by rewrite (Hnone _ Hall).
Qed.

Lemma omap_at_most_one (items : list (gmap string RegionSet)) (k : string) :
  NoDup (keys_of_items items) →
  (length (omap (λ item : gmap string RegionSet, item !! k) items) ≤ 1)%nat.
Proof.
  unfold keys_of_items. induction items as [|item items IH]; [simpl; lia|].
  rewrite bind_cons. intros [_ [Hdisj Hnd]]%NoDup_app. rewrite omap_cons_eq.
  destruct (item !! k) as [v|] eqn:Hv; [|by apply IH].
  assert (Hk : k ∈ elements (dom item)).
  { apply elem_of_elements, elem_of_dom. by eexists. }
  assert (Hrest : omap (λ item0 : gmap string RegionSet, item0 !! k) items = []).
  { clear IH Hnd. induction items as [|x l IHl]; [done|]. rewrite omap_cons_eq.
    destruct (x !! k) as [u|] eqn:Hu.
    - exfalso. apply (Hdisj k Hk). rewrite bind_cons. apply elem_of_app. left.
      apply elem_of_elements, elem_of_dom. by eexists.
    - apply IHl. intros y Hy Hin. apply (Hdisj y Hy). rewrite bind_cons.
      apply elem_of_app. by right. }
  rewrite Hrest. simpl. lia.
Qed.

(** X19: when no key is in two items, the dictionary the engine ends with
    does not depend on the order in which the items arrive. *)
Theorem merge_order_independent (items items' : list (gmap string RegionSet))
    (d : gmap string RegionSet) :
  NoDup (keys_of_items items) → items ≡ₚ items' →
  foldl dict_update d items = foldl dict_update d items'.
Proof.
  intros Hnd Hperm. apply map_eq. intros k.
  rewrite !foldl_dict_update_lookup. unfold last_received.
  assert (Hnd' : NoDup (keys_of_items items')).
  { unfold keys_of_items in *. by rewrite <- Hperm. }
  pose proof (omap_at_most_one items k Hnd) as H1.
  pose proof (omap_at_most_one items' k Hnd') as H2.
  assert (Hp : omap (λ item : gmap string RegionSet, item !! k) items
               ≡ₚ omap (λ item : gmap string RegionSet, item !! k) items')
    by by rewrite Hperm.
  destruct (omap _ items) as [|x [|??]], (omap _ items') as [|y [|??]];
    simpl in *; try lia; try done.
  - by apply Permutation_nil_cons in Hp.
  - symmetry in Hp. by apply Permutation_nil_cons in Hp.
  - by apply Permutation_singleton_l in Hp as [= ->].
Qed.

Lemma merge_order_independent_witness :
  foldl dict_update ∅ (channel (env drain_engine))
  = foldl dict_update ∅ (reverse (channel (env drain_engine))).
Proof.
  apply (merge_order_independent (channel (env drain_engine))
           (reverse (channel (env drain_engine))) ∅).
  - apply (bool_decide_unpack _). vm_compute. exact I.
  - symmetry. apply reverse_Permutation.
Defined.

(** ** The engine with the reducer of the code *)

Section AggregationFacts.

Variable json_loads : string → result json.
Variable trials : list Trial.
Variable get_trial_dir : string → string → Z → string.
Variable get_work_dir : string.
Variable get_coverage_binaries_dir : string.
Variable get_fuzz_target : string → string.
Variable get_fuzz_target_binary : string → string → string.
Variable execute : list string → FS → result (Z * string).

Let reducer := get_covered_region json_loads trials get_trial_dir get_work_dir
                 get_coverage_binaries_dir get_fuzz_target
                 get_fuzz_target_binary execute.

Lemma reachable_inv (config : experiment_config) (w : world)
    (schedule : list action) (e : engine) :
  channel w = [] →
  run reducer schedule (start config w) = Some e →
  engine_inv trials (get_covered_region_args config) e.
Proof.
  intros Hw Hrun.
  exact (engine_inv_run trials reducer
           (get_covered_region_outcome json_loads trials get_trial_dir
              get_work_dir get_coverage_binaries_dir get_fuzz_target
              get_fuzz_target_binary execute)
           _ _ _ _ (engine_inv_start trials config w Hw) Hrun).
Qed.

(** X20: at every point of a run that started on an empty queue, for
    every task whose call of [get_covered_region] ran to completion, the
    key of its pair is a key of the engine's dictionary or of an item that
    is still in the queue: the engine drops no key it was sent. *)
Theorem received_keys_are_kept (config : experiment_config) (w : world)
    (schedule : list action) (e : engine) (i : nat)
    (experiment fuzzer benchmark : string) (st : task_status) :
  channel w = [] →
  run reducer schedule (start config w) = Some e →
  tasks e !! i = Some (experiment, fuzzer, benchmark, st) →
  st = Ran true ∨ st = Reported true →
  is_Some (all_covered_regions e !! get_fuzzer_benchmark_key fuzzer benchmark)
  ∨ ∃ item, item ∈ channel (env e)
            ∧ is_Some (item !! get_fuzzer_benchmark_key fuzzer benchmark).
Proof.
  intros Hw Hrun Hi Hst.
  destruct (reachable_inv config w schedule e Hw Hrun) as [_ _ _ Hkept _].
  destruct (Hkept i _ _ Hi Hst) as [Hin|(item & Hitem & Hin)].
  - left. by apply elem_of_dom in Hin.
  - right. exists item. split; [done|]. by apply elem_of_dom in Hin.
Qed.

(** X21: at every point of such a run, every key of the dictionary the
    engine would return is the key of a pair of the configured product, and
    the list under it has no region twice. *)
Theorem returned_keys_are_dispatched (config : experiment_config) (w : world)
    (schedule : list action) (e : engine) (k : string) (regions : list Region) :
  channel w = [] →
  run reducer schedule (start config w) = Some e →
  returned_dict e !! k = Some regions →
  (∃ fuzzer benchmark,
     fuzzer ∈ split_comma (cfg_fuzzers config)
     ∧ benchmark ∈ split_comma (cfg_benchmarks config)
     ∧ k = get_fuzzer_benchmark_key fuzzer benchmark)
  ∧ NoDup regions.
Proof.
  intros Hw Hrun Hk.
  destruct (reachable_inv config w schedule e Hw Hrun) as [_ _ Hmerged _ _].
  unfold returned_dict in Hk. rewrite lookup_fmap in Hk.
  destruct (all_covered_regions e !! k) as [covered|] eqn:Hc; [|done].
  injection Hk as <-. split; [|apply NoDup_elements].
  destruct (Hmerged k covered Hc) as ([[experiment fuzzer] benchmark] & covered'
                                      & Ha & Heq & _).
  apply elem_of_get_covered_region_args in Ha as (_ & Hf & Hb).
  exists fuzzer, benchmark. split; [done|]. split; [done|].
  apply (f_equal dom) in Heq. rewrite !dom_singleton_L in Heq. set_solver.
Qed.

End AggregationFacts.

Lemma received_keys_are_kept_witness :
  is_Some (all_covered_regions example_end !! get_fuzzer_benchmark_key "afl" "b1")
  ∨ ∃ item, item ∈ channel (env example_end)
            ∧ is_Some (item !! get_fuzzer_benchmark_key "afl" "b1").
Proof.
  apply (received_keys_are_kept loads example_trials example_get_trial_dir
           "/work" "/work/coverage-binaries" (λ _, "fuzz-target")
           example_get_fuzz_target_binary example_execute
           example_config empty_world example_schedule example_end 0
           "exp" "afl" "b1" (Reported true)).
  - reflexivity.
  - vm_compute. reflexivity.
  - vm_compute. reflexivity.
  - by right.
Defined.

Lemma returned_keys_are_dispatched_witness :
  (∃ fuzzer benchmark,
     fuzzer ∈ split_comma (cfg_fuzzers example_config)
     ∧ benchmark ∈ split_comma (cfg_benchmarks example_config)
     ∧ "afl b1" = get_fuzzer_benchmark_key fuzzer benchmark)
  ∧ NoDup [region_a; region_b].
Proof.
  apply (returned_keys_are_dispatched loads example_trials example_get_trial_dir
           "/work" "/work/coverage-binaries" (λ _, "fuzz-target")
           example_get_fuzz_target_binary example_execute
           example_config empty_world example_schedule example_end "afl b1"
           [region_a; region_b]).
  - reflexivity.
  - vm_compute. reflexivity.
  - vm_compute. reflexivity.
Defined.

(** ** Staging for several benchmarks *)

Section StagingMore.

Variable environ : gmap string string.
Variable Store : Type.
Variable ls_retcode : string → Store → Z.
Variable create_directory : string → St Store unit.
Variable cp : string → string → St Store unit.
Variable tar_extractall : string → string → St Store unit.
Variable os_remove : string → St Store unit.

Let set_up_one := set_up_coverage_file environ Store ls_retcode create_directory
                    cp tar_extractall os_remove.
Let set_up_all := set_up_coverage_files environ Store ls_retcode
                    create_directory cp tar_extractall os_remove.

(** X22: when the store lists no archive of any of the experiments for
    any of the benchmarks, [set_up_coverage_files] changes nothing and
    returns without an exception. *)
Theorem set_up_coverage_files_no_archive (experiment_names : list string)
    (report_dir : string) (benchmarks : list string) (s : Store) :
  Forall (λ benchmark,
            Forall (λ experiment,
                      ls_retcode (get_benchmark_archive environ experiment
                                    benchmark) s ≠ 0%Z)
                   experiment_names) benchmarks →
  set_up_all experiment_names report_dir benchmarks s = (s, Ok tt).
Proof.
  unfold set_up_all, set_up_coverage_files.
  induction 1 as [|benchmark benchmarks Hb _ IH]; [done|].
  simpl. unfold st_bind.
  rewrite <- (app_nil_r experiment_names) at 1.
  rewrite (set_up_coverage_file_skips environ Store ls_retcode create_directory
             cp tar_extractall os_remove _ [] _ _ _ Hb).
  exact IH.
Qed.

(** X23: an exception raised while the archive of a benchmark is staged
    ends [set_up_coverage_files]: the exception is the one of the call, the
    store is left as the failed staging left it, and the benchmarks after
    it are not set up. *)
Theorem set_up_coverage_files_stops (experiment_names : list string)
    (report_dir : string) (done : list string) (benchmark : string)
    (rest : list string) (s s1 : Store) (e : exn) :
  set_up_all experiment_names report_dir done s = (s1, Ok tt) →
  (set_up_one experiment_names report_dir benchmark s1).2 = Raise e →
  set_up_all experiment_names report_dir (done ++ benchmark :: rest) s
  = ((set_up_one experiment_names report_dir benchmark s1).1, Raise e).
Proof.
  unfold set_up_all, set_up_coverage_files. intros Hdone Hbad.
  rewrite for_each_app, Hdone. simpl. unfold st_bind.
  fold set_up_one.
  destruct (set_up_one experiment_names report_dir benchmark s1) as [s2 r].
  simpl in Hbad. by subst r.
Qed.

End StagingMore.

Lemma set_up_coverage_files_no_archive_witness :
  set_up_coverage_files ∅ (list store_event) example_ls_retcode
    (λ d, record_event (EvCreateDirectory d))
    (λ src dst, record_event (EvCp src dst))
    (λ archive d, record_event (EvExtractAll archive d))
    (λ path, record_event (EvRemove path))
    ["exp1"; "exp2"] "/reports" ["b2"; "b3"] []
  = ([], Ok tt).
Proof.
  apply (set_up_coverage_files_no_archive ∅ (list store_event)
           example_ls_retcode
           (λ d, record_event (EvCreateDirectory d))
           (λ src dst, record_event (EvCp src dst))
           (λ archive d, record_event (EvExtractAll archive d))
           (λ path, record_event (EvRemove path))
           ["exp1"; "exp2"] "/reports" ["b2"; "b3"] []).
  repeat constructor; vm_compute; discriminate.
Defined.

Lemma set_up_coverage_files_stops_witness :
  set_up_coverage_files ∅ (list store_event) example_ls_retcode
    (λ d, record_event (EvCreateDirectory d)) raising_cp
    (λ archive d, record_event (EvExtractAll archive d))
    (λ path, record_event (EvRemove path))
    ["exp1"; "exp2"] "/reports" ([] ++ "b1" :: ["b2"]) []
  = ((set_up_coverage_file ∅ (list store_event) example_ls_retcode
        (λ d, record_event (EvCreateDirectory d)) raising_cp
        (λ archive d, record_event (EvExtractAll archive d))
        (λ path, record_event (EvRemove path))
        ["exp1"; "exp2"] "/reports" "b1" []).1, Raise OSError).
Proof.
  apply (set_up_coverage_files_stops ∅ (list store_event) example_ls_retcode
           (λ d, record_event (EvCreateDirectory d)) raising_cp
           (λ archive d, record_event (EvExtractAll archive d))
           (λ path, record_event (EvRemove path))
           ["exp1"; "exp2"] "/reports" [] "b1" ["b2"] [] [] OSError);
    reflexivity.
Defined.

(** ** The report pipeline *)

Lemma for_each_singleton {S A} (body : A → St S unit) (x : A) (s : S) :
  for_each [x] body s = body x s.
Proof. simpl. unfold st_bind. by destruct (body x s) as [s' [[]|e]]. Qed.

Lemma for_each_ext {S A} (body body' : A → St S unit) (l : list A) :
  (∀ x s, body x s = body' x s) → ∀ s, for_each l body s = for_each l body' s.
Proof.
  intros Hext. induction l as [|x l IH]; intros s; [done|].
  simpl. unfold st_bind. rewrite Hext.
  destruct (body' x s) as [s' [[]|e]]; [apply IH|done].
Qed.

Lemma for_each_flatten {S A B} (f : A → list B) (body : B → St S unit)
    (l : list A) (s : S) :
  for_each (l ≫= f) body s = for_each l (λ x, for_each (f x) body) s.
Proof.
  revert s. induction l as [|x l IH]; intros s; [done|].
  rewrite bind_cons, for_each_app. simpl. unfold st_bind.
  destruct (for_each (f x) body s) as [s' [[]|e]]; [apply IH|done].
Qed.

Section ReporterFacts.

Variable environ : gmap string string.
Variable trials : list Trial.
Variable get_trial_dir : string → string → Z → string.
Variable get_fuzz_target : string → string.
Variable get_fuzz_target_binary : string → string → string.
Variable Store : Type.
Variable ls_retcode : string → Store → Z.
Variable create_directory : string → St Store unit.
Variable cp : string → string → St Store unit.
Variable tar_extractall : string → string → St Store unit.
Variable os_remove : string → St Store unit.
Variable os_listdir : string → St Store (list string).
Variable execute : option bool → list string → St Store Z.
Variable logger_error : string → St Store unit.

Let report := generate_cov_report environ trials get_trial_dir get_fuzz_target
                get_fuzz_target_binary Store create_directory cp os_listdir
                execute logger_error.
Let fetch := fetch_profdata_files environ trials get_trial_dir Store
               create_directory cp.
Let merge := reporter_merge_profdata_files Store os_listdir execute logger_error.
Let render := reporter_generate_cov_report Store execute logger_error.

(** X24: the sequential mode runs [generate_cov_report] on the argument
    tuples the parallel mode hands to the pool, once each and in the order
    of that list, after the same set-up of the coverage files. *)
Theorem generate_cov_reports_seq_order (experiments benchmarks fuzzers : list string)
    (report_dir : string) (s : Store) :
  generate_cov_reports_seq environ trials get_trial_dir get_fuzz_target
    get_fuzz_target_binary Store ls_retcode create_directory cp tar_extractall
    os_remove os_listdir execute logger_error
    experiments benchmarks fuzzers report_dir s
  = (set_up_coverage_files environ Store ls_retcode create_directory cp
       tar_extractall os_remove experiments report_dir benchmarks ;;
     for_each (generate_cov_report_args experiments benchmarks fuzzers report_dir)
       (λ a, report a.1.1.1 a.1.1.2 a.1.2 a.2)) s.
Proof.
  unfold generate_cov_reports_seq, generate_cov_report_args.
  rewrite !st_bind_unfold.
  destruct (set_up_coverage_files _ _ _ _ _ _ _ _ _ _ s) as [s' [[]|e]]; [|done].
  rewrite for_each_flatten. apply for_each_ext. intros benchmark s0.
  rewrite for_each_flatten. apply for_each_ext. intros fuzzer s1.
  by rewrite for_each_singleton.
Qed.

Lemma merge_outcome (self : CoverageReporter) (s s0 s1 : Store)
    (entries : list string) (retcode : Z) :
  os_listdir (cr_fuzzer_report_dir self) s = (s0, Ok entries) →
  execute (Some false)
    (["llvm-profdata-11"; "merge"; "-sparse"]
     ++ (path_join (cr_fuzzer_report_dir self) <$> entries)
     ++ ["-o"; cr_merged_profdata_file self]) s0 = (s1, Ok retcode) →
  merge self s
  = if Z.eqb retcode 0 then (s1, Ok tt) else logger_error merging_failed_msg s1.
Proof.
  intros Hls Hrun. unfold merge, reporter_merge_profdata_files.
  rewrite st_bind_unfold, Hls. rewrite st_bind_unfold.
  unfold merge_profdata_files. rewrite Hrun.
  by destruct (Z.eqb retcode 0).
Qed.

(** X25: a merge of the profiles that exits with a status other than 0
    does not make [CoverageReporter.merge_profdata_files] raise: it logs
    the error record and returns; with the status 0 it logs nothing.  The
    files merged are the entries of the fuzzer's report directory, each
    joined to the directory. *)
Theorem reporter_merge_exit_status (self : CoverageReporter) (s s0 s1 : Store)
    (entries : list string) (retcode : Z) :
  os_listdir (cr_fuzzer_report_dir self) s = (s0, Ok entries) →
  execute (Some false)
    (["llvm-profdata-11"; "merge"; "-sparse"]
     ++ (path_join (cr_fuzzer_report_dir self) <$> entries)
     ++ ["-o"; cr_merged_profdata_file self]) s0 = (s1, Ok retcode) →
  (retcode = 0%Z → merge self s = (s1, Ok tt))
  ∧ (retcode ≠ 0%Z → merge self s = logger_error merging_failed_msg s1)
  ∧ (∀ s2, logger_error merging_failed_msg s1 = (s2, Ok tt) →
           (merge self s).2 = Ok tt).
Proof.
  intros Hls Hrun. rewrite (merge_outcome self s s0 s1 entries retcode Hls Hrun).
  split; [|split].
  - by intros ->.
  - intros Hne. apply Z.eqb_neq in Hne. by rewrite Hne.
  - intros s2 Hlog. destruct (Z.eqb retcode 0); [done|by rewrite Hlog].
Qed.

(** X26: after a merge that exits with a status other than 0, and whose
    error record is logged, [generate_cov_report] still runs the report
    tool for the pair. *)
Theorem generate_cov_report_after_failed_merge (experiments : list string)
    (benchmark fuzzer report_dir : string) (s s0 s1 s2 s3 : Store)
    (entries : list string) (retcode : Z) :
  let generator :=
    new_CoverageReporter get_fuzz_target get_fuzz_target_binary fuzzer benchmark
      experiments report_dir in
  fetch generator s = (s0, Ok tt) →
  os_listdir (cr_fuzzer_report_dir generator) s0 = (s1, Ok entries) →
  execute (Some false)
    (["llvm-profdata-11"; "merge"; "-sparse"]
     ++ (path_join (cr_fuzzer_report_dir generator) <$> entries)
     ++ ["-o"; cr_merged_profdata_file generator]) s1 = (s2, Ok retcode) →
  retcode ≠ 0%Z →
  logger_error merging_failed_msg s2 = (s3, Ok tt) →
  report experiments benchmark fuzzer report_dir s = render generator s3.
Proof.
  intros generator Hfetch Hls Hrun Hne Hlog.
  unfold report, generate_cov_report. fold generator.
  rewrite st_bind_unfold. fold fetch. rewrite Hfetch.
  rewrite st_bind_unfold. fold merge.
  rewrite (merge_outcome generator s0 s1 s2 entries retcode Hls Hrun).
  apply Z.eqb_neq in Hne. by rewrite Hne, Hlog.
Qed.

(** X27: when no experiment has a trial of the pair that is not
    preempted, [fetch_profdata_files] creates the fuzzer's report directory
    and copies nothing. *)
Theorem fetch_profdata_files_no_trial (self : CoverageReporter) (s : Store) :
  Forall (λ experiment,
            get_trial_ids trials experiment (cr_fuzzer self) (cr_benchmark self)
            = []) (cr_experiments self) →
  fetch self s = create_directory (cr_fuzzer_report_dir self) s.
Proof.
  intros Hnone. unfold fetch, fetch_profdata_files.
  assert (Hfiles : files_to_fetch environ trials get_trial_dir self = []).
  { unfold files_to_fetch. induction Hnone as [|x l Hx _ IH]; [done|].
    by rewrite bind_cons, Hx, IH. }
  rewrite Hfiles. rewrite st_bind_unfold.
  by destruct (create_directory (cr_fuzzer_report_dir self) s) as [s' [[]|e]].
Qed.

End ReporterFacts.

Lemma reporter_merge_exit_status_witness :
  reporter_merge_profdata_files (list call) example_listdir exit_1_execute
    (λ message, record_call (CallLogError message)) example_reporter []
  = ([ CallExecute (Some false)
         [ "llvm-profdata-11"; "merge"; "-sparse";
           "/reports/b1/afl/data-1.profdata";
           "-o"; "/reports/b1/afl/merged.profdata" ];
       CallLogError merging_failed_msg ], Ok tt).
Proof.
  etrans.
  - apply (proj1 (proj2 (reporter_merge_exit_status (list call) example_listdir
             exit_1_execute (λ message, record_call (CallLogError message))
             example_reporter [] []
             [ CallExecute (Some false)
                 [ "llvm-profdata-11"; "merge"; "-sparse";
                   "/reports/b1/afl/data-1.profdata";
                   "-o"; "/reports/b1/afl/merged.profdata" ] ]
             ["data-1.profdata"] 1%Z eq_refl eq_refl))).
    discriminate.
  - vm_compute. reflexivity.
Defined.

Lemma generate_cov_report_after_failed_merge_witness :
  ∃ s3 : list call,
    last s3 = Some (CallLogError merging_failed_msg)
    ∧ generate_cov_report ∅ example_trials example_get_trial_dir
        (λ _, "fuzz-target") example_get_fuzz_target_binary (list call)
        (λ d, record_call (CallCreateDirectory d))
        (λ source destination, record_call (CallCp source destination))
        example_listdir exit_1_execute
        (λ message, record_call (CallLogError message))
        ["exp"] "b1" "afl" "/reports" []
      = reporter_generate_cov_report (list call) exit_1_execute
          (λ message, record_call (CallLogError message)) example_reporter s3.
Proof.
  eexists. split; cycle 1.
  - eapply (generate_cov_report_after_failed_merge ∅ example_trials
              example_get_trial_dir (λ _, "fuzz-target")
              example_get_fuzz_target_binary (list call)
              (λ d, record_call (CallCreateDirectory d))
              (λ source destination, record_call (CallCp source destination))
              example_listdir exit_1_execute
              (λ message, record_call (CallLogError message))
              ["exp"] "b1" "afl" "/reports" []).
    + vm_compute. reflexivity.
    + reflexivity.
    + reflexivity.
    + discriminate.
    + reflexivity.
  - vm_compute. reflexivity.
Defined.

Lemma fetch_profdata_files_no_trial_witness :
  fetch_profdata_files ∅ example_trials example_get_trial_dir (list call)
    (λ d, record_call (CallCreateDirectory d))
    (λ source destination, record_call (CallCp source destination))
    example_libfuzzer_reporter []
  = ([CallCreateDirectory "/reports/b1/libfuzzer"], Ok tt).
Proof.
  etrans.
  - apply (fetch_profdata_files_no_trial ∅ example_trials example_get_trial_dir
             (list call) (λ d, record_call (CallCreateDirectory d))
             (λ source destination, record_call (CallCp source destination))
             example_libfuzzer_reporter []).
    repeat constructor.
  - vm_compute. reflexivity.
Defined.

(** The calls of [generate_cov_report] for afl on b1 in the example: the
    directory, one copy for each finished trial, the merge, its error
    record, the report tool and its error record. *)
Example generate_cov_report_example :
  (generate_cov_report ∅ example_trials example_get_trial_dir
     (λ _, "fuzz-target") example_get_fuzz_target_binary (list call)
     (λ d, record_call (CallCreateDirectory d))
     (λ source destination, record_call (CallCp source destination))
     example_listdir exit_1_execute
     (λ message, record_call (CallLogError message))
     ["exp"] "b1" "afl" "/reports" []).1
  = [ CallCreateDirectory "/reports/b1/afl";
      CallCp "gs://fuzzbench-data/exp/experiment-folders/b1-afl/trial-1/data-1.profdata"
             "/reports/b1/afl";
      CallCp "gs://fuzzbench-data/exp/experiment-folders/b1-afl/trial-2/data-2.profdata"
             "/reports/b1/afl";
      CallExecute (Some false)
        [ "llvm-profdata-11"; "merge"; "-sparse";
          "/reports/b1/afl/data-1.profdata";
          "-o"; "/reports/b1/afl/merged.profdata" ];
      CallLogError merging_failed_msg;
      CallExecute None
        [ "llvm-cov-11"; "show"; "-format=html";
          "-path-equivalence=/,/reports/b1/src";
          "-output-dir=/reports/b1/afl";
          "-Xdemangler"; "c++filt"; "-Xdemangler"; "-n";
          "/reports/b1/fuzz-target";
          "-instr-profile=/reports/b1/afl/merged.profdata" ];
      CallLogError
        "Coverage report generation failed for fuzzer: afl,benchmark: b1." ].
Proof. vm_compute. reflexivity. Qed.
